(** * P2PoolManager: a shallow embedding of src/p2pool/P2PoolManager.cpp

    The manager downloads, verifies and unpacks the p2pool release archive,
    starts the daemon as a detached process with a computed argument list,
    polls the JSON statistics file the daemon writes, and kills the daemon
    on exit.

    The C++ methods are embedded as functions that pass the manager's
    fields, the file system and the list of events (signals emitted,
    programs run, GETs sent, processes launched) explicitly.  What the
    operating system and the network answer comes from outside: the outcome
    of [startDetached] is an argument of [start], the network, [tar] and the
    locale's codec are fields of the environment [Env].  The Qt calls the
    methods rely on ([QString::split], [QDir], [QFile], [QTextStream],
    [QJsonDocument], [QCryptographicHash]) are modelled from the Qt 5
    documentation.  [qDebug] output is left out. *)

From Stdlib Require Import ZArith NArith Ascii String List Lia.
From stdpp Require Import base decidable option list strings gmap.

Local Open Scope string_scope.
Local Open Scope list_scope.

(** ** QString helpers *)

(** [QString::split(sep)] with the default [Qt::KeepEmptyParts]: the pieces
    between the occurrences of [sep], empty pieces included (the empty
    string splits into one empty piece). *)
Fixpoint split (sep : ascii) (s : string) : list string :=
  match s with
  | EmptyString => [EmptyString]
  | String c s' =>
      if decide (c = sep) then EmptyString :: split sep s'
      else match split sep s' with
           | [] => [String c EmptyString]
           | w :: ws => String c w :: ws
           end
  end.

(** [QString::isEmpty]. *)
Definition isEmpty (s : string) : bool :=
  match s with EmptyString => true | String _ _ => false end.

(** [QStringList::contains] (case sensitive). *)
Definition contains (l : list string) (x : string) : bool :=
  bool_decide (x ∈ l).

(** Lines 160-164 of [start]: the non-empty pieces of [flags.split(" ")],
    in order. *)
Definition flag_tokens (flags : string) : list string :=
  filter (λ str, isEmpty str = false) (split " " flags).

(** ** The file system

    Absolute paths are lists of components; the file system maps the paths
    that exist to what is there.  Qt's calls are modelled on this map as
    their documentation describes them; access rights are not modelled. *)

Inductive node :=
  | File (data : string)
  | Dir.

#[global] Instance node_eq_dec : EqDecision node.
Proof. solve_decision. Defined.

Abbreviation path := (list string).
Abbreviation filesystem := (gmap (list string) node).

(** The components of a path given as text: the non-empty pieces between
    slashes, so that a trailing slash names the same entry. *)
Definition path_of (s : string) : path :=
  filter (λ c, isEmpty c = false) (split "/" s).

Definition parent (p : path) : path := removelast p.

(** [QFileInfo(p).isFile()]. *)
Definition isFile (fs : filesystem) (p : path) : bool :=
  match fs !! p with Some (File _) => true | _ => false end.

(** [QDir(p).exists()]: [p] is there and is a directory. *)
Definition isDir (fs : filesystem) (p : path) : bool :=
  match fs !! p with Some Dir => true | _ => false end.

(** [QDir::exists(name)]: an entry called [name] is there, whatever its
    kind. *)
Definition QDir_exists (fs : filesystem) (p : path) : bool :=
  match fs !! p with Some _ => true | None => false end.

(** [QDir(p).removeRecursively()]: removes the directory with everything
    below it; nothing happens when [p] is not a directory. *)
Definition QDir_removeRecursively (fs : filesystem) (p : path) : filesystem :=
  if isDir fs p then filter (λ kv, ¬ p `prefix_of` kv.1) fs else fs.

(** [QDir::mkdir(name)]: creates the directory when nothing is there yet
    and its parent is a directory; fails (no change) otherwise. *)
Definition QDir_mkdir (fs : filesystem) (p : path) : filesystem :=
  match fs !! p with
  | Some _ => fs
  | None => if isDir fs (parent p) then <[p := Dir]> fs else fs
  end.

(** [QFile::open(WriteOnly)], [write(data)], [close()]: creates or
    truncates the file; the open fails, and the write is lost, when [p] is a
    directory or its parent is not one. *)
Definition QFile_write (fs : filesystem) (p : path) (data : string) : filesystem :=
  match fs !! p with
  | Some Dir => fs
  | _ => if isDir fs (parent p) then <[p := File data]> fs else fs
  end.

(** [QFile::remove(fileName)]. *)
Definition QFile_remove (fs : filesystem) (p : path) : filesystem :=
  if isFile fs p then delete p fs else fs.

(** [QFile::open(ReadOnly)] and reading all the bytes; nothing is read when
    the open fails. *)
Definition QFile_read (fs : filesystem) (p : path) : string :=
  match fs !! p with Some (File data) => data | _ => EmptyString end.

(** ** QTextStream

    [statsOut >> data] with [data] a [QByteArray] is
    [QTextStream::operator>>(QByteArray &)], which reads one word: the
    stream decodes the bytes with its codec, skips the leading white space
    ([QChar::isSpace]), takes the characters up to the next white space and
    stores each one converted to Latin-1. *)

(** [QChar::isSpace] on a UTF-16 code unit. *)
Definition QChar_isSpace (c : N) : bool :=
  ((c =? 32) || ((9 <=? c) && (c <=? 13)) || (c =? 133) || (c =? 160)
   || (c =? 5760) || ((8192 <=? c) && (c <=? 8202)) || (c =? 8232)
   || (c =? 8233) || (c =? 8239) || (c =? 8287) || (c =? 12288))%N.

(** [QChar::toLatin1]: the character itself below 256, NUL otherwise. *)
Definition QChar_toLatin1 (c : N) : ascii :=
  if (c <=? 255)%N then ascii_of_N c else zero.

Fixpoint skipSpace (cs : list N) : list N :=
  match cs with
  | c :: cs' => if QChar_isSpace c then skipSpace cs' else cs
  | [] => []
  end.

Fixpoint scanWord (cs : list N) : list N :=
  match cs with
  | c :: cs' => if QChar_isSpace c then [] else c :: scanWord cs'
  | [] => []
  end.

(** [QTextStream::operator>>(QByteArray &)] on the decoded characters. *)
Definition readWord (cs : list N) : string :=
  string_of_list_ascii (map QChar_toLatin1 (scanWord (skipSpace cs))).

(** The codec of a Latin-1 locale: every byte is its own character. *)
Definition latin1 (bytes : string) : list N :=
  map N_of_ascii (list_ascii_of_string bytes).

(** ** QJsonDocument

    [QJsonDocument::fromJson] after Qt's parser: RFC 8259 with Qt's
    leniencies (an unknown escape stands for its character, the fraction of
    a number may be empty), a nesting limit of 1024, and a top level that
    must be an array or an object.  Numbers are kept as exact decimals
    [m * 10^e] where Qt rounds to a double; bytes above 127 inside strings
    are kept as they are. *)

#[warnings="-register-all"] Inductive QJsonValue :=
  | Null
  | Bool (b : bool)
  | Number (m e : Z)
  | Str (s : string)
  | Array (vs : list QJsonValue)
  | Object (members : list (string * QJsonValue))
  | Undefined.

Definition ch (n : nat) : ascii := ascii_of_nat n.
Definition dquote : ascii := ch 34.
Definition backslash : ascii := ch 92.
Definition quoted (s : string) : string :=
  String dquote (s +:+ String dquote EmptyString).

Definition is_digit (c : ascii) : bool :=
  ((48 <=? N_of_ascii c) && (N_of_ascii c <=? 57))%N.

Definition digit_value (c : ascii) : Z := Z.of_N (N_of_ascii c) - 48.

Definition hex_value (c : ascii) : option N :=
  let n := N_of_ascii c in
  if ((48 <=? n) && (n <=? 57))%N then Some (n - 48)%N
  else if ((65 <=? n) && (n <=? 70))%N then Some (n - 55)%N
  else if ((97 <=? n) && (n <=? 102))%N then Some (n - 87)%N
  else None.

Fixpoint eatSpace (s : string) : string :=
  match s with
  | String c s' =>
      if ((c =? " ") || (c =? ch 9) || (c =? ch 10) || (c =? ch 13))%char
      then eatSpace s' else s
  | EmptyString => EmptyString
  end.

(** The leading digits of [s] and what follows them. *)
Fixpoint scanDigits (s : string) : list ascii * string :=
  match s with
  | String c s' =>
      if is_digit c then let (ds, r) := scanDigits s' in (c :: ds, r)
      else ([], s)
  | EmptyString => ([], EmptyString)
  end.

Definition decimal (ds : list ascii) : Z :=
  fold_left (λ acc d, 10 * acc + digit_value d)%Z ds 0%Z.

(** [Parser::parseNumber]: sign, integer part (a single 0 or digits),
    fraction, exponent; the scanned text must then convert to a double. *)
Definition parseNumber (s : string) : option (QJsonValue * string) :=
  let (neg, s1) :=
    match s with
    | String c s' => if (c =? "-")%char then (true, s') else (false, s)
    | EmptyString => (false, s)
    end in
  let (ip, s2) :=
    match s1 with
    | String c s' => if (c =? "0")%char then ([c], s') else scanDigits s1
    | EmptyString => ([], s1)
    end in
  let (fp, s3) :=
    match s2 with
    | String c s' => if (c =? ".")%char then scanDigits s' else ([], s2)
    | EmptyString => ([], s2)
    end in
  let mantissa := decimal (ip ++ fp) in
  let signed := if neg then (- mantissa)%Z else mantissa in
  let shift := Z.of_nat (length fp) in
  match ip ++ fp with
  | [] => None
  | _ :: _ =>
      match s3 with
      | String c s' =>
          if ((c =? "e") || (c =? "E"))%char then
            let (eneg, s4) :=
              match s' with
              | String c' s'' =>
                  if (c' =? "-")%char then (true, s'')
                  else if (c' =? "+")%char then (false, s'')
                  else (false, s')
              | EmptyString => (false, s')
              end in
            match scanDigits s4 with
            | ([], _) => None
            | (ds, r) =>
                let ex := if eneg then (- decimal ds)%Z else decimal ds in
                Some (Number signed (ex - shift), r)
            end
          else Some (Number signed (- shift), s3)
      | EmptyString => Some (Number signed (- shift), s3)
      end
  end.

(** UTF-8 for a code unit written as [\uXXXX]. *)
Definition utf8 (u : N) : list ascii :=
  if (u <? 128)%N then [ascii_of_N u]
  else if (u <? 2048)%N then
    [ascii_of_N (192 + u / 64); ascii_of_N (128 + u mod 64)]%N
  else
    [ascii_of_N (224 + u / 4096); ascii_of_N (128 + (u / 64) mod 64);
     ascii_of_N (128 + u mod 64)]%N.

Definition prepend (cs : list ascii) (r : option (string * string))
  : option (string * string) :=
  match r with
  | Some (t, rest) => Some (string_of_list_ascii cs +:+ t, rest)
  | None => None
  end.

Definition unescape (e : ascii) : ascii :=
  if (e =? "b")%char then ch 8
  else if (e =? "f")%char then ch 12
  else if (e =? "n")%char then ch 10
  else if (e =? "r")%char then ch 13
  else if (e =? "t")%char then ch 9
  else e.

(** [Parser::parseString] after the opening quote: the characters up to
    the closing quote, escapes resolved. *)
Fixpoint parseString (n : nat) (s : string) : option (string * string) :=
  match n, s with
  | S n', String c s' =>
      if (c =? dquote)%char then Some (EmptyString, s')
      else if (c =? backslash)%char then
        match s' with
        | String e s'' =>
            if (e =? "u")%char then
              match s'' with
              | String h1 (String h2 (String h3 (String h4 r))) =>
                  match hex_value h1, hex_value h2, hex_value h3, hex_value h4 with
                  | Some a, Some b, Some c', Some d =>
                      prepend (utf8 (((a * 16 + b) * 16 + c') * 16 + d)%N)
                              (parseString n' r)
                  | _, _, _, _ => None
                  end
              | _ => None
              end
            else prepend [unescape e] (parseString n' s'')
        | EmptyString => None
        end
      else if (N_of_ascii c <? 32)%N then None
      else prepend [c] (parseString n' s')
  | _, _ => None
  end.

(** The rest of a literal ([null], [true], [false]) after its first
    letter. *)
Definition literal (rest : string) (v : QJsonValue) (s : string)
  : option (QJsonValue * string) :=
  if String.prefix rest s
  then Some (v, String.substring (String.length rest)
                                 (String.length s - String.length rest) s)
  else None.

(** [Parser::parseArray] after the opening bracket and the white space
    behind it, with [pv] parsing one value. *)
Definition parseElements (pv : string → option (QJsonValue * string))
  : nat → string → option (list QJsonValue * string) :=
  fix elements n s :=
    match n with
    | O => None
    | S n' =>
        match pv (eatSpace s) with
        | None => None
        | Some (v, r) =>
            match eatSpace r with
            | String c r' =>
                if (c =? ",")%char then
                  match elements n' r' with
                  | Some (vs, r'') => Some (v :: vs, r'')
                  | None => None
                  end
                else if (c =? "]")%char then Some ([v], r')
                else None
            | EmptyString => None
            end
        end
    end.

(** [Parser::parseObject] after the opening brace and the white space
    behind it: members [key : value] separated by commas. *)
Definition parseMembers (pv : string → option (QJsonValue * string))
  : nat → string → option (list (string * QJsonValue) * string) :=
  fix members n s :=
    match n with
    | O => None
    | S n' =>
        match eatSpace s with
        | String q s1 =>
            if (q =? dquote)%char then
              match parseString (String.length s1) s1 with
              | None => None
              | Some (key, s2) =>
                  match eatSpace s2 with
                  | String c s3 =>
                      if (c =? ":")%char then
                        match pv (eatSpace s3) with
                        | None => None
                        | Some (v, r) =>
                            match eatSpace r with
                            | String c' r' =>
                                if (c' =? ",")%char then
                                  match members n' r' with
                                  | Some (ms, r'') => Some ((key, v) :: ms, r'')
                                  | None => None
                                  end
                                else if (c' =? "}")%char then Some ([(key, v)], r')
                                else None
                            | EmptyString => None
                            end
                        end
                      else None
                  | EmptyString => None
                  end
              end
            else None
        | EmptyString => None
        end
    end.

(** [Parser::parseValue]; [depth] is the nesting still allowed. *)
Fixpoint parseValue (depth : nat) (s : string) : option (QJsonValue * string) :=
  match s with
  | EmptyString => None
  | String c s' =>
      if (c =? "n")%char then literal "ull" Null s'
      else if (c =? "t")%char then literal "rue" (Bool true) s'
      else if (c =? "f")%char then literal "alse" (Bool false) s'
      else if (c =? dquote)%char then
        match parseString (String.length s') s' with
        | Some (t, r) => Some (Str t, r)
        | None => None
        end
      else if (c =? "[")%char then
        match depth with
        | O => None
        | S d =>
            match eatSpace s' with
            | String c' r =>
                if (c' =? "]")%char then Some (Array [], r)
                else
                  match parseElements (parseValue d) (String.length s') s' with
                  | Some (vs, r') => Some (Array vs, r')
                  | None => None
                  end
            | EmptyString => None
            end
        end
      else if (c =? "{")%char then
        match depth with
        | O => None
        | S d =>
            match eatSpace s' with
            | String c' r =>
                if (c' =? "}")%char then Some (Object [], r)
                else
                  match parseMembers (parseValue d) (String.length s') s' with
                  | Some (ms, r') => Some (Object ms, r')
                  | None => None
                  end
            | EmptyString => None
            end
        end
      else if (c =? "]")%char then None
      else parseNumber s
  end.

Definition nestingLimit : nat := 1024.

(** A UTF-8 byte order mark in front of the document is skipped. *)
Definition skipBom (s : string) : string :=
  match s with
  | String a (String b (String c r)) =>
      if ((a =? ch 239) && (b =? ch 187) && (c =? ch 191))%char then r else s
  | _ => s
  end.

(** [QJsonDocument::fromJson(data)]: the array or object the text holds,
    or the null document ([None]) when the text is not one JSON document. *)
Definition fromJson (data : string) : option QJsonValue :=
  match eatSpace (skipBom data) with
  | String c s' =>
      if ((c =? "[") || (c =? "{"))%char then
        match parseValue nestingLimit (String c s') with
        | Some (v, r) =>
            match eatSpace r with
            | EmptyString => Some v
            | String _ _ => None
            end
        | None => None
        end
      else None
  | EmptyString => None
  end.

(** [QJsonDocument::object()]: the members of the document when it is an
    object, no members otherwise. *)
Definition object (doc : option QJsonValue) : list (string * QJsonValue) :=
  match doc with
  | Some (Object ms) => ms
  | _ => []
  end.

(** [QJsonObject::value(key)]: of members with the same key the parser
    keeps the last; a missing key gives [Undefined]. *)
Definition value (ms : list (string * QJsonValue)) (key : string) : QJsonValue :=
  match filter (λ kv, kv.1 = key) ms with
  | [] => Undefined
  | kv :: kvs => (List.last kvs kv).2
  end.

Definition INT_MIN : Z := - 2 ^ 31.
Definition INT_MAX : Z := 2 ^ 31 - 1.

(** [QJsonValue::toInt()]: the number when it is integral and fits an
    [int], the default 0 otherwise. *)
Definition toInt (v : QJsonValue) : Z :=
  match v with
  | Number m e =>
      let n :=
        if (0 <=? e)%Z then Some (m * 10 ^ e)%Z
        else if (m mod 10 ^ (- e) =? 0)%Z then Some (m / 10 ^ (- e))%Z
        else None in
      match n with
      | Some i => if ((INT_MIN <=? i) && (i <=? INT_MAX))%Z then i else 0%Z
      | None => 0%Z
      end
  | _ => 0%Z
  end.

(** ** QCryptographicHash

    [QCryptographicHash::hash(data, QCryptographicHash::Sha256)] followed by
    [toHex()]: SHA-256 of FIPS 180-4 over 32-bit words, the digest written
    in lower-case hexadecimal. *)

Module Sha256.
Local Open Scope N_scope.

Definition word (x : N) : N := x mod 2 ^ 32.
Definition add (x y : N) : N := word (x + y).
Definition rotr (n x : N) : N := N.lor (N.shiftr x n) (word (N.shiftl x (32 - n))).
Definition complement (x : N) : N := N.lxor x 0xffffffff.

Definition Ch (x y z : N) : N := N.lxor (N.land x y) (N.land (complement x) z).
Definition Maj (x y z : N) : N :=
  N.lxor (N.lxor (N.land x y) (N.land x z)) (N.land y z).
Definition Sigma0 (x : N) : N := N.lxor (N.lxor (rotr 2 x) (rotr 13 x)) (rotr 22 x).
Definition Sigma1 (x : N) : N := N.lxor (N.lxor (rotr 6 x) (rotr 11 x)) (rotr 25 x).
Definition sigma0 (x : N) : N := N.lxor (N.lxor (rotr 7 x) (rotr 18 x)) (N.shiftr x 3).
Definition sigma1 (x : N) : N := N.lxor (N.lxor (rotr 17 x) (rotr 19 x)) (N.shiftr x 10).

(** The first [n] primes below 400. *)
Definition is_prime (p : N) : bool :=
  forallb (λ d, negb (p mod N.of_nat d =? 0)) (seq 2 (N.to_nat p - 2)).

Definition primes (n : nat) : list N :=
  take n (filter (λ p, is_prime p = true) (map N.of_nat (seq 2 398))).

(** The integer part of the cube root, found bit by bit from bit 39
    down. *)
Definition cube_root (x : N) : N :=
  fold_left (λ r b, let r' := r + 2 ^ N.of_nat b in
                    if r' * r' * r' <=? x then r' else r)
            (rev (seq 0 40)) 0.

(** The round constants: the first 32 bits of the fractional parts of the
    cube roots of the first 64 primes. *)
Definition K : list N :=
  map (λ p, word (cube_root (p * 2 ^ 96))) (primes 64).

(** The initial hash value: the first 32 bits of the fractional parts of
    the square roots of the first 8 primes. *)
Definition H0 : list N :=
  map (λ p, word (N.sqrt (p * 2 ^ 64))) (primes 8).

(** The message followed by the bit 1, zeros up to 56 modulo 64 bytes, and
    its length in bits as 8 bytes. *)
Definition big_endian (width : nat) (x : N) : list N :=
  map (λ i, (x / 256 ^ N.of_nat i) mod 256) (rev (seq 0 width)).

Definition pad (bytes : list N) : list N :=
  let len := length bytes in
  let zeros := ((64 - (len + 9) mod 64) mod 64)%nat in
  bytes ++ [128] ++ repeat 0 zeros ++ big_endian 8 (8 * N.of_nat len).

(** Big-endian words of four bytes each. *)
Fixpoint words (bytes : list N) : list N :=
  match bytes with
  | a :: b :: c :: d :: rest => (((a * 256 + b) * 256 + c) * 256 + d) :: words rest
  | _ => []
  end.

(** The message schedule: [n] more words after the ones in [w]. *)
Fixpoint schedule (n : nat) (w : list N) : list N :=
  match n with
  | O => w
  | S n' =>
      let t := length w in
      let at_ (k : nat) := nth (t - k)%nat w 0 in
      schedule n' (w ++ [add (add (sigma1 (at_ 2%nat)) (at_ 7%nat))
                             (add (sigma0 (at_ 15%nat)) (at_ 16%nat))])
  end.

Definition round (v : list N) (kw : N * N) : list N :=
  match v with
  | [a; b; c; d; e; f; g; h] =>
      let t1 := add (add (add h (Sigma1 e)) (add (Ch e f g) kw.1)) kw.2 in
      let t2 := add (Sigma0 a) (Maj a b c) in
      [add t1 t2; a; b; c; add d t1; e; f; g]
  | _ => v
  end.

Definition compress (h : list N) (block : list N) : list N :=
  let w := schedule 48 block in
  zip_with add h (fold_left round (zip K w) h).

Fixpoint blocks (n : nat) (ws : list N) : list (list N) :=
  match n with
  | O => []
  | S n' => take 16 ws :: blocks n' (drop 16 ws)
  end.

Definition digest (bytes : list N) : list N :=
  let ws := words (pad bytes) in
  fold_left compress (blocks (length ws / 16)%nat ws) H0.

Definition hex_digit (d : N) : ascii :=
  if d <? 10 then ascii_of_N (48 + d) else ascii_of_N (87 + d).

Definition hex_byte (b : N) : list ascii := [hex_digit (b / 16); hex_digit (b mod 16)].

End Sha256.

Definition sha256_hex (data : string) : string :=
  let bytes := map N_of_ascii (list_ascii_of_string data) in
  string_of_list_ascii
    (concat (map Sha256.hex_byte
                 (concat (map (Sha256.big_endian 4) (Sha256.digest bytes))))).

(** ** The environment of the manager *)

(** The build targets the preprocessor conditions tell apart: [Q_OS_WIN],
    [Q_OS_LINUX], [Q_OS_MACOS_AARCH64], [Q_OS_MACOS], another [Q_OS_UNIX],
    and none of them. *)
Inductive OS := Windows | Linux | MacosAarch64 | Macos | OtherUnix | Unknown.

(** What [QUrl] gives for a URL: [host()], [path()] and
    [query(QUrl::FullyEncoded)]. *)
Record QUrl := { url_host : string; url_path : string; url_query : string }.

(** A GET of epee's [http_simple_client]: the server set with [set_server],
    the URI and the [User-Agent] header. *)
Record Request := {
  req_host : string;
  req_port : string;
  req_uri : string;
  req_userAgent : string
}.

(** The fields of [http_response_info] the manager reads. *)
Record Response := {
  m_response_code : Z;
  m_etc_fields : list (string * string);
  m_body : string
}.

(** What the manager gets from outside: the build target, the
    application's directory, the user agent drawn for a download, Qt's URL
    parser, the network (the answer to a GET given the GETs the client sent
    before it, [None] when [invoke_get] fails), what running [tar] with
    given arguments does to the file system, and the codec a [QTextStream]
    decodes with. *)
Class Env := {
  os : OS;
  applicationDirPath : string;
  randomUserAgent : string;
  toQUrl : string → QUrl;
  invoke_get : list Request → Request → option Response;
  tar : list string → filesystem → filesystem;
  codecForLocale : string → list N
}.

(** ** The manager's state *)

Inductive DownloadError :=
  | BinaryNotAvailable
  | ConnectionIssue
  | HashVerificationFailed
  | InstallationFailed.

(** The signals of [P2PoolManager]. *)
Inductive Signal :=
  | p2poolDownloadFailure (errorCode : DownloadError)
  | p2poolDownloadSuccess
  | p2poolStatus (isMining : bool) (hashrate : Z)
  | p2poolStartFailure.

(** A [QProcess] as [start] sets it up. *)
Record QProcess := {
  program : string;
  arguments : list string;
  workingDirectory : string
}.

(** What the manager does to the outside, in the order it does it. *)
Inductive Event :=
  | Emit (s : Signal)
  | Execute (prog : string) (args : list string)
  | HttpGet (r : Request)
  | StartDetached (p : QProcess).

(** The fields [started] and [m_p2poold], the file system and the events
    so far.  [m_p2poolPath] and [m_p2pool] are set once by the constructor
    and are functions of the environment below. *)
Record State := {
  started : bool;
  m_p2poold : option QProcess;
  files : filesystem;
  trace : list Event
}.

Definition set_started (b : bool) (st : State) : State :=
  {| started := b; m_p2poold := m_p2poold st; files := files st; trace := trace st |}.

Definition set_process (p : QProcess) (st : State) : State :=
  {| started := started st; m_p2poold := Some p; files := files st; trace := trace st |}.

Definition set_files (fs : filesystem) (st : State) : State :=
  {| started := started st; m_p2poold := m_p2poold st; files := fs; trace := trace st |}.

Definition record (e : Event) (st : State) : State :=
  {| started := started st; m_p2poold := m_p2poold st; files := files st;
     trace := trace st ++ [e] |}.

Definition emit (s : Signal) (st : State) : State := record (Emit s) st.

(** The signals among the events. *)
Definition signals (t : list Event) : list Signal :=
  omap (λ e, match e with Emit s => Some s | _ => None end) t.

(** The GETs among the events. *)
Definition requests (t : list Event) : list Request :=
  omap (λ e, match e with HttpGet r => Some r | _ => None end) t.

(** The external programs run among the events. *)
Definition commands (t : list Event) : list (string * list string) :=
  omap (λ e, match e with Execute p a => Some (p, a) | _ => None end) t.

Definition record_all (es : list Event) (st : State) : State :=
  {| started := started st; m_p2poold := m_p2poold st; files := files st;
     trace := trace st ++ es |}.

Section Manager.
Context `{Env}.

(** ** The constructor (lines 233-252) *)

Definition m_p2poolPath : string :=
  match os with
  | Windows => applicationDirPath +:+ "/p2pool"
  | Unknown => EmptyString
  | _ => applicationDirPath
  end.

Definition m_p2pool : string :=
  match os with
  | Windows => m_p2poolPath +:+ "/p2pool.exe"
  | Unknown => EmptyString
  | _ => m_p2poolPath +:+ "/p2pool"
  end.

Definition P2PoolManager (fs : filesystem) : State :=
  {| started := false;
     m_p2poold := None;
     files := match os with
              | Windows =>
                  if isDir fs (path_of m_p2poolPath) then fs
                  else QDir_mkdir fs (path_of m_p2poolPath)
              | _ => fs
              end;
     trace := [] |}.

(** ** [isInstalled] (lines 124-130) *)

Definition isInstalled (st : State) : bool :=
  if negb (isFile (files st) (path_of m_p2pool)) then false else true.

(** ** [download] (lines 50-122)

    The body of the task handed to the scheduler. *)

Definition release_url : string :=
  match os with
  | Windows => "https://github.com/SChernykh/p2pool/releases/download/v4.9/p2pool-v4.9-windows-x64.zip"
  | Linux => "https://github.com/SChernykh/p2pool/releases/download/v4.9/p2pool-v4.9-linux-x64.tar.gz"
  | MacosAarch64 => "https://github.com/SChernykh/p2pool/releases/download/v4.9/p2pool-v4.9-macos-aarch64.tar.gz"
  | Macos => "https://github.com/SChernykh/p2pool/releases/download/v4.9/p2pool-v4.9-macos-x64.tar.gz"
  | _ => EmptyString
  end.

Definition fileName : string :=
  match os with
  | Windows => m_p2poolPath +:+ "/p2pool-v4.9-windows-x64.zip"
  | Linux => m_p2poolPath +:+ "/p2pool-v4.9-linux-x64.tar.gz"
  | MacosAarch64 => m_p2poolPath +:+ "/p2pool-v4.9-macos-aarch64.tar.gz"
  | Macos => m_p2poolPath +:+ "/p2pool-v4.9-macos-x64.tar.gz"
  | _ => EmptyString
  end.

Definition validHash : string :=
  match os with
  | Windows => "d109b6dcb01907695a8728063a1495a0d339cc7d03bbc5ad08262d0b876fab2d"
  | Linux => "db33e4c1cd1a48008f1c52b0d0eb1a2d6a2bae6fe5191277c94dbbf5b098907a"
  | MacosAarch64 => "6116cc25e34d1840c3f0e5697b444049cd936deee072dfd7e67d83577c1dc546"
  | Macos => "a275d4c2a66481833926b181e3e910126d9e67169d7a31c905d6bb39e80f1e8f"
  | _ => EmptyString
  end.

(** Line 78: the first GET, to the release URL's host and path. *)
Definition first_request : Request :=
  let url := toQUrl release_url in
  {| req_host := url_host url; req_port := "443"; req_uri := url_path url;
     req_userAgent := randomUserAgent |}.

(** Lines 86-91: the GET for one [Location] value. *)
Definition redirected_request (location : string) : Request :=
  let url := toQUrl location in
  {| req_host := url_host url; req_port := "443";
     req_uri := url_path url +:+ "?" +:+ url_query url;
     req_userAgent := randomUserAgent |}.

(** Lines 84-93, one round of the loop over the header fields of the first
    response: a field called [Location] sends a GET whose outcome replaces
    [success] and [response]; [acc] holds the GETs sent so far and the
    latest outcome. *)
Definition redirect (acc : list Request * option Response)
    (field : string * string) : list Request * option Response :=
  if decide (field.1 = "Location") then
    let req := redirected_request field.2 in
    (acc.1 ++ [req], invoke_get acc.1 req)
  else acc.

(** Lines 82-94: a first response with status 302 runs the loop. *)
Definition follow (first : option Response) : list Request * option Response :=
  match first with
  | Some response =>
      if (m_response_code response =? 302)%Z
      then fold_left redirect (m_etc_fields response) ([first_request], first)
      else ([first_request], first)
  | None => ([first_request], first)
  end.

(** Lines 107-117: write the archive, unpack it, delete it, and look for
    the binary. *)
Definition install (data : string) (st : State) : State :=
  let fs := QFile_write (files st) (path_of fileName) data in
  let args := ["-xzf"; fileName; "--strip=1"; "-C"; m_p2poolPath] in
  let st := set_files (tar args fs) (record (Execute "tar" args) (set_files fs st)) in
  let st := set_files (QFile_remove (files st) (path_of fileName)) st in
  if isInstalled st then emit p2poolDownloadSuccess st
  else emit (p2poolDownloadFailure InstallationFailed) st.

(** Lines 99-118: compare the digest of the body with the expected one. *)
Definition verify (response : Response) (st : State) : State :=
  let data := m_body response in
  let hash := sha256_hex data in
  if decide (hash ≠ validHash)
  then emit (p2poolDownloadFailure HashVerificationFailed) st
  else install data st.

Definition download (st : State) : State :=
  let first := invoke_get [] first_request in
  match first with
  | Some response =>
      if (m_response_code response =? 404)%Z
      then emit (p2poolDownloadFailure BinaryNotAvailable)
                (record (HttpGet first_request) st)
      else
        let (sent, result) := follow first in
        let st := record_all (map HttpGet sent) st in
        match result with
        | None => emit (p2poolDownloadFailure ConnectionIssue) st
        | Some last => verify last st
        end
  | None =>
      emit (p2poolDownloadFailure ConnectionIssue)
           (record (HttpGet first_request) st)
  end.

(** ** [getStatus] (lines 132-152) *)

Definition statsPath : string := m_p2poolPath +:+ "/stats/local/miner".

Definition getStatus (st : State) : State :=
  let status := true in
  if negb (isFile (files st) (path_of statsPath)) || negb (started st) then
    let status := started st in
    emit (p2poolStatus status 0) st
  else
    let data := readWord (codecForLocale (QFile_read (files st) (path_of statsPath))) in
    let json := fromJson data in
    let jsonObj := object json in
    let hashrate := toInt (value jsonObj "current_hashrate") in
    emit (p2poolStatus status hashrate) st.

(** ** [start] (lines 154-215) *)

Definition dirName : string := m_p2poolPath +:+ "/stats/".

(** Lines 171-177: remove the stats directory when something of that name
    exists, then create it. *)
Definition recreate (fs : filesystem) : filesystem :=
  let fs := if QDir_exists fs (path_of dirName)
            then QDir_removeRecursively fs (path_of dirName) else fs in
  QDir_mkdir fs (path_of dirName).

(** Lines 157-168: the caller's flags, then [--local-api] unless it is
    among them. *)
Definition custom_flags (flags : string) : list string :=
  let args := flag_tokens flags in
  if negb (contains args "--local-api") then args ++ ["--local-api"] else args.

(** Lines 181-191: the mining threads, the chain and the wallet. *)
Definition mining_flags (address chain threads : string) (args : list string)
  : list string :=
  let args := if negb (contains args "--start-mining")
              then args ++ ["--start-mining"; threads] else args in
  let args := if decide (chain = "mini") then args ++ ["--mini"] else args in
  if negb (contains args "--wallet") then args ++ ["--wallet"; address] else args.

(** Lines 157-191: the argument list, and the file system after the stats
    directory was dealt with. *)
Definition assemble (flags address chain threads : string) (fs : filesystem)
  : list string * filesystem :=
  let args := custom_flags flags in
  let '(args, fs) := if negb (contains args "--data-api")
                     then (args ++ ["--data-api"; dirName], recreate fs)
                     else (args, fs) in
  (mining_flags address chain threads args, fs).

(** Lines 196-214, under the mutex: replace the process object, start it
    detached, and report.  [launched] is what [startDetached] returns. *)
Definition launch (args : list string) (launched : bool) (st : State)
  : bool * State :=
  let p := {| program := m_p2pool; arguments := args;
              workingDirectory := m_p2poolPath |} in
  let st := set_process p st in
  let st := set_started launched (record (StartDetached p) st) in
  if negb (started st) then (false, emit p2poolStartFailure st)
  else (true, st).

Definition start (flags address chain threads : string) (launched : bool)
    (st : State) : bool * State :=
  let '(args, fs) := assemble flags address chain threads (files st) in
  launch args launched (set_files fs st).

(** ** [exit] (lines 217-231) *)

Definition kill : Event :=
  match os with
  | Windows => Execute "taskkill" ["/F"; "/IM"; "p2pool.exe"]
  | _ => Execute "pkill" ["p2pool"]
  end.

Definition exit (st : State) : State :=
  if started st then
    let st := record kill st in
    let st := set_started false st in
    set_files (QDir_removeRecursively (files st) (path_of dirName)) st
  else st.

End Manager.

Section Calls.
Context `{Env}.

(** ** The argument list with every check made on the caller's tokens

    The reading of the specification, to be compared with [assemble]: each
    of the four containment checks looks at the pieces of [flags] and at
    nothing else. *)
Definition arguments_by_tokens (flags address chain threads : string)
  : list string :=
  let tokens := flag_tokens flags in
  tokens
  ++ (if negb (contains tokens "--local-api") then ["--local-api"] else [])
  ++ (if negb (contains tokens "--data-api") then ["--data-api"; dirName] else [])
  ++ (if negb (contains tokens "--start-mining") then ["--start-mining"; threads] else [])
  ++ (if decide (chain = "mini") then ["--mini"] else [])
  ++ (if negb (contains tokens "--wallet") then ["--wallet"; address] else []).

(** ** Sequences of calls *)

Inductive Call :=
  | CallStart (flags address chain threads : string) (launched : bool)
  | CallExit.

Definition call (c : Call) (st : State) : State :=
  match c with
  | CallStart flags address chain threads launched =>
      (start flags address chain threads launched st).2
  | CallExit => exit st
  end.

Definition calls (cs : list Call) (st : State) : State :=
  fold_left (λ st c, call c st) cs st.

(** The stats directory goes with [started]: the install directory is
    there, no regular file is called [stats], and the directory exists
    exactly when [started] is true. *)
Definition stats_follow_started (st : State) : Prop :=
  isDir (files st) (path_of m_p2poolPath) = true
  ∧ isFile (files st) (path_of dirName) = false
  ∧ isDir (files st) (path_of dirName) = started st.

(** ** [start] and [exit] as threads

    Each access to the shared fields, the file system or the mutex is one
    step of the thread that makes it; the constructors name the line the
    thread is about to run, with the locals it holds. *)

Inductive Thread :=
  | Start_begin (flags address chain threads : string) (launched : bool)
  | Start_exists (address chain threads : string) (launched : bool)
                 (args : list string)                       (* line 174 *)
  | Start_remove (address chain threads : string) (launched : bool)
                 (args : list string)                       (* line 175 *)
  | Start_mkdir (address chain threads : string) (launched : bool)
                (args : list string)                        (* line 177 *)
  | Start_lock (args : list string) (launched : bool)       (* line 196 *)
  | Start_reset (args : list string) (launched : bool)      (* lines 198-203 *)
  | Start_launch (p : QProcess) (launched : bool)           (* line 206 *)
  | Start_test                                              (* line 208 *)
  | Start_fail                                              (* line 210 *)
  | Start_return (r : bool)                                 (* lines 211, 214 *)
  | Exit_begin                                              (* line 220 *)
  | Exit_kill                                               (* lines 222, 224 *)
  | Exit_clear                                              (* line 226 *)
  | Exit_remove                                             (* line 229 *)
  | Done (r : option bool).

(** The shared state, the thread holding [m_p2poolMutex] if any, and the
    threads. *)
Record Config := {
  shared : State;
  m_p2poolMutex : option nat;
  threads : list Thread
}.

(** One step of thread [tid]; [None] when the thread has returned or
    waits for the mutex. *)
Definition thread_step (tid : nat) (t : Thread) (st : State) (m : option nat)
  : option (Thread * State * option nat) :=
  match t with
  | Start_begin flags address chain threads launched =>
      let args := custom_flags flags in
      if negb (contains args "--data-api")
      then Some (Start_exists address chain threads launched args, st, m)
      else Some (Start_lock (mining_flags address chain threads args) launched, st, m)
  | Start_exists address chain threads launched args =>
      if QDir_exists (files st) (path_of dirName)
      then Some (Start_remove address chain threads launched args, st, m)
      else Some (Start_mkdir address chain threads launched args, st, m)
  | Start_remove address chain threads launched args =>
      Some (Start_mkdir address chain threads launched args,
            set_files (QDir_removeRecursively (files st) (path_of dirName)) st, m)
  | Start_mkdir address chain threads launched args =>
      Some (Start_lock (mining_flags address chain threads
                          (args ++ ["--data-api"; dirName])) launched,
            set_files (QDir_mkdir (files st) (path_of dirName)) st, m)
  | Start_lock args launched =>
      match m with
      | None => Some (Start_reset args launched, st, Some tid)
      | Some _ => None
      end
  | Start_reset args launched =>
      let p := {| program := m_p2pool; arguments := args;
                  workingDirectory := m_p2poolPath |} in
      Some (Start_launch p launched, set_process p st, m)
  | Start_launch p launched =>
      Some (Start_test, set_started launched (record (StartDetached p) st), m)
  | Start_test =>
      if negb (started st) then Some (Start_fail, st, m)
      else Some (Start_return true, st, m)
  | Start_fail => Some (Start_return false, emit p2poolStartFailure st, m)
  | Start_return r => Some (Done (Some r), st, None)
  | Exit_begin =>
      if started st then Some (Exit_kill, st, m) else Some (Done None, st, m)
  | Exit_kill => Some (Exit_clear, record kill st, m)
  | Exit_clear => Some (Exit_remove, set_started false st, m)
  | Exit_remove =>
      Some (Done None,
            set_files (QDir_removeRecursively (files st) (path_of dirName)) st, m)
  | Done _ => None
  end.

(** Thread [i] of the configuration makes one step. *)
Definition step (i : nat) (c : Config) : option Config :=
  match threads c !! i with
  | Some t =>
      match thread_step i t (shared c) (m_p2poolMutex c) with
      | Some (t', st, m) =>
          Some {| shared := st; m_p2poolMutex := m;
                  threads := <[i := t']> (threads c) |}
      | None => None
      end
  | None => None
  end.

(** The threads step in the order the schedule gives. *)
Fixpoint run (schedule : list nat) (c : Config) : option Config :=
  match schedule with
  | [] => Some c
  | i :: schedule' =>
      match step i c with
      | Some c' => run schedule' c'
      | None => None
      end
  end.

Inductive reachable (c0 : Config) : Config → Prop :=
  | reachable_refl : reachable c0 c0
  | reachable_step c i c' :
      reachable c0 c → step i c = Some c' → reachable c0 c'.

(** A thread between taking the mutex (line 196) and returning. *)
Definition locked (t : Thread) : bool :=
  match t with
  | Start_reset _ _ | Start_launch _ _ | Start_test | Start_fail
  | Start_return _ => true
  | _ => false
  end.

(** A thread about to run a line of [exit], or a line of [start] before
    the mutex is taken. *)
Definition unguarded (t : Thread) : bool :=
  match t with
  | Start_begin _ _ _ _ _ | Start_exists _ _ _ _ _ | Start_remove _ _ _ _ _
  | Start_mkdir _ _ _ _ _ | Exit_begin | Exit_kill | Exit_clear | Exit_remove =>
      true
  | _ => false
  end.

(** A thread that has not run its first line yet. *)
Definition fresh (t : Thread) : bool :=
  match t with
  | Start_begin _ _ _ _ _ | Exit_begin => true
  | _ => false
  end.

Definition finished (t : Thread) : bool :=
  match t with Done _ => true | _ => false end.

(** The number of steps a thread has left at most. *)
Definition rank (t : Thread) : nat :=
  match t with
  | Start_begin _ _ _ _ _ => 10
  | Start_exists _ _ _ _ _ => 9
  | Start_remove _ _ _ _ _ => 8
  | Start_mkdir _ _ _ _ _ => 7
  | Start_lock _ _ => 6
  | Start_reset _ _ => 5
  | Start_launch _ _ => 4
  | Start_test => 3
  | Start_fail => 2
  | Start_return _ => 1
  | Exit_begin => 4
  | Exit_kill => 3
  | Exit_clear => 2
  | Exit_remove => 1
  | Done _ => 0
  end.

(** Calls about to begin on a manager in state [st]. *)
Definition spawn (st : State) (ts : list Thread) : Config :=
  {| shared := st; m_p2poolMutex := None; threads := ts |}.

(** Every thread in a locked part is the holder of the mutex. *)
Definition held_by_locked (c : Config) : Prop :=
  ∀ i t, threads c !! i = Some t → locked t = true → m_p2poolMutex c = Some i.

(** The configuration the schedule leads to (the one it starts from when
    the schedule asks a thread to step that cannot). *)
Definition after (schedule : list nat) (c : Config) : Config :=
  default c (run schedule c).

(** One thread on its own, for at most [n] steps. *)
Fixpoint alone (n : nat) (t : Thread) (st : State) (m : option nat)
  : Thread * State * option nat :=
  match n with
  | O => (t, st, m)
  | S n' =>
      match thread_step 0 t st m with
      | Some (t', st', m') => alone n' t' st' m'
      | None => (t, st, m)
      end
  end.

End Calls.

(** A call the stats-directory invariant survives: an [exit], or a [start]
    without [--data-api] among its flags whose launch succeeds. *)
Definition plain_call (c : Call) : Prop :=
  match c with
  | CallStart flags _ _ _ launched =>
      contains (flag_tokens flags) "--data-api" = false ∧ launched = true
  | CallExit => True
  end.

(** Every entry but the root lies in a directory. *)
Definition well_formed (fs : filesystem) : Prop :=
  map_Forall (λ p _, p = [] ∨ isDir fs (parent p) = true) fs.

#[global] Instance well_formed_dec (fs : filesystem) : Decision (well_formed fs).
Proof. unfold well_formed. apply _. Defined.

(** ** A sample installation

    A Linux build installed under [/opt/monero-gui], used to run the
    manager on concrete inputs. *)

(** The text of [s] before the first [c], and the rest from [c] on. *)
Fixpoint break (c : ascii) (s : string) : string * string :=
  match s with
  | EmptyString => (EmptyString, EmptyString)
  | String a s' =>
      if (a =? c)%char then (EmptyString, s)
      else let (l, r) := break c s' in (String a l, r)
  end.

Definition tail (s : string) : string :=
  match s with String _ s' => s' | EmptyString => EmptyString end.

(** Host, path and query of a plain [scheme://host/path?query] URL. *)
Definition sample_url (s : string) : QUrl :=
  let rest := tail (tail (tail (break ":" s).2)) in
  let (h, r) := break "/" rest in
  let (p, q) := break "?" r in
  {| url_host := h; url_path := p; url_query := tail q |}.

Definition sample_env (net : list Request → Request → option Response) : Env :=
  {| os := Linux;
     applicationDirPath := "/opt/monero-gui";
     randomUserAgent := "Mozilla/5.0";
     toQUrl := sample_url;
     invoke_get := net;
     tar := λ _ fs, fs;
     codecForLocale := latin1 |}.

Definition offline : list Request → Request → option Response := λ _ _, None.

(** The application's directory with the daemon's binary in it. *)
Definition installed : filesystem :=
  list_to_map
    [([], Dir); (["opt"], Dir); (["opt"; "monero-gui"], Dir);
     (["opt"; "monero-gui"; "p2pool"], File "ELF")].

(** The same while the daemon runs and has written [data] to its
    statistics file. *)
Definition mining (data : string) : filesystem :=
  list_to_map
    [([], Dir); (["opt"], Dir); (["opt"; "monero-gui"], Dir);
     (["opt"; "monero-gui"; "p2pool"], File "ELF");
     (["opt"; "monero-gui"; "stats"], Dir);
     (["opt"; "monero-gui"; "stats"; "local"], Dir);
     (["opt"; "monero-gui"; "stats"; "local"; "miner"], File data)].

(** A statistics file with a space after the colon, and one without. *)
Definition spaced_json : string :=
  "{" +:+ quoted "current_hashrate" +:+ ": 1234}".

Definition compact_json : string :=
  "{" +:+ quoted "current_hashrate" +:+ ":1234}".

Definition running (fs : filesystem) : State :=
  {| started := true; m_p2poold := None; files := fs; trace := [] |}.

(** A server that answers the first GET with a redirect carrying the
    given header fields, and nothing after it. *)
Definition redirecting (fields : list (string * string))
  : list Request → Request → option Response :=
  λ sent _,
    match sent with
    | [] => Some {| m_response_code := 302; m_etc_fields := fields;
                    m_body := EmptyString |}
    | _ => None
    end.

(** A server that answers every GET with the given body. *)
Definition serving (body : string) : list Request → Request → option Response :=
  λ _ _, Some {| m_response_code := 200; m_etc_fields := []; m_body := body |}.

(** The sample manager after a [start] that launched, with a second
    [start] and an [exit] about to run concurrently. *)
Definition race : Config :=
  let E := sample_env offline in
  spawn (start EmptyString "abc" "main" "4" true (P2PoolManager installed)).2
        [Start_begin EmptyString "abc" "main" "4" true; Exit_begin].

(** A server that answers every GET with the given status and body. *)
Definition answering (code : Z) (body : string)
  : list Request → Request → option Response :=
  λ _ _, Some {| m_response_code := code; m_etc_fields := []; m_body := body |}.

(** The sample installation built for another target. *)
Definition sample_env_on (target : OS)
    (net : list Request → Request → option Response) : Env :=
  {| os := target;
     applicationDirPath := "/opt/monero-gui";
     randomUserAgent := "Mozilla/5.0";
     toQUrl := sample_url;
     invoke_get := net;
     tar := λ _ fs, fs;
     codecForLocale := latin1 |}.

(** The application's directory before the manager was ever constructed. *)
Definition unpacked : filesystem :=
  list_to_map [([], Dir); (["opt"], Dir); (["opt"; "monero-gui"], Dir)].

(** * Properties *)

(** ** Strings and paths *)

Lemma split_cons (sep : ascii) (s : string) :
  ∃ w ws, split sep s = w :: ws.
Proof.
  induction s as [|c s IH]; simpl; [by eauto|].
  destruct IH as (w & ws & ->). case_decide; eauto.
Qed.

Lemma split_append (sep : ascii) (a b : string) :
  split sep (a +:+ String sep b) = split sep a ++ split sep b.
Proof.
  induction a as [|c a IH]; simpl.
  - by rewrite decide_True.
  - case_decide; [by rewrite IH|].
    rewrite IH. by destruct (split_cons sep a) as (w & ws & ->).
Qed.

Lemma path_of_append (a b : string) :
  path_of (a +:+ String "/" b) = path_of a ++ path_of b.
Proof. unfold path_of. by rewrite split_append, filter_app. Qed.

Lemma contains_app (l l' : list string) (x : string) :
  contains (l ++ l') x = contains l x || contains l' x.
Proof.
  unfold contains. apply eq_true_iff_eq.
  rewrite orb_true_iff, !bool_decide_eq_true. apply elem_of_app.
Qed.

Lemma contains_false (l : list string) (x : string) :
  contains l x = false ↔ x ∉ l.
Proof. unfold contains. apply bool_decide_eq_false. Qed.

(** A text that ends with a slash is none of the flags. *)
Lemma append_slash_neq (a b c : string) :
  List.last (list_ascii_of_string c) "/"%char ≠ "/"%char →
  a +:+ b +:+ "/" ≠ c.
Proof.
  intros Hc <-. apply Hc. clear Hc.
  assert (∀ x y, list_ascii_of_string (x +:+ y)
                 = list_ascii_of_string x ++ list_ascii_of_string y) as Happ.
  { intros x y. induction x as [|k x IH]; simpl; [done|by rewrite IH]. }
  rewrite !Happ, app_assoc. simpl. by rewrite List.last_last.
Qed.

Section Paths.
Context `{Env}.

Lemma path_of_dirName : path_of dirName = path_of m_p2poolPath ++ ["stats"].
Proof. unfold dirName. by rewrite (path_of_append _ "stats/"). Qed.

Lemma path_of_statsPath :
  path_of statsPath = path_of m_p2poolPath ++ ["stats"; "local"; "miner"].
Proof. unfold statsPath. by rewrite (path_of_append _ "stats/local/miner"). Qed.

Lemma parent_dirName : parent (path_of dirName) = path_of m_p2poolPath.
Proof. rewrite path_of_dirName. apply removelast_last. Qed.

Lemma dirName_not_flag (flag : string) :
  List.last (list_ascii_of_string flag) "/"%char ≠ "/"%char → dirName ≠ flag.
Proof. apply (append_slash_neq m_p2poolPath "/stats"). Qed.

End Paths.

(** ** The file system *)

Lemma removeRecursively_below (fs : filesystem) (p q : path) :
  isDir fs p = true → p `prefix_of` q → QDir_removeRecursively fs p !! q = None.
Proof.
  intros Hd Hpq. unfold QDir_removeRecursively. rewrite Hd.
  apply map_lookup_filter_None. right. intros x _ Hn. by apply Hn.
Qed.

Lemma removeRecursively_other (fs : filesystem) (p q : path) :
  ¬ p `prefix_of` q → QDir_removeRecursively fs p !! q = fs !! q.
Proof.
  intros Hpq. unfold QDir_removeRecursively. destruct (isDir fs p); [|done].
  rewrite map_lookup_filter. destruct (fs !! q) as [x|]; simpl; [|done].
  by rewrite option_guard_True.
Qed.

Lemma mkdir_other (fs : filesystem) (p q : path) :
  q ≠ p → QDir_mkdir fs p !! q = fs !! q.
Proof.
  intros Hq. unfold QDir_mkdir. destruct (fs !! p); [done|].
  destruct (isDir fs (parent p)); [|done]. by rewrite lookup_insert_ne.
Qed.

Lemma mkdir_isDir (fs : filesystem) (p : path) :
  fs !! p = None → isDir fs (parent p) = true → isDir (QDir_mkdir fs p) p = true.
Proof.
  intros Hp Hd. unfold QDir_mkdir. rewrite Hp, Hd.
  unfold isDir. by rewrite lookup_insert_eq.
Qed.

(** In a well-formed file system nothing lies below a missing entry. *)
Lemma nothing_below_missing (fs : filesystem) (p q : path) :
  well_formed fs → fs !! p = None → p `prefix_of` q → fs !! q = None.
Proof.
  intros Hwf Hp [k ->]. induction k as [|x k IH] using rev_ind.
  - by rewrite app_nil_r.
  - destruct (fs !! (p ++ k ++ [x])) as [n|] eqn:Hq; [|done].
    apply Hwf in Hq as [Hq|Hq].
    + by destruct p, k.
    + unfold parent in Hq. rewrite app_assoc, removelast_last in Hq.
      unfold isDir in Hq. by rewrite IH in Hq.
Qed.

Section Files.
Context `{Env}.

Lemma stats_not_above_install :
  ¬ path_of dirName `prefix_of` path_of m_p2poolPath.
Proof. rewrite path_of_dirName. apply prefix_snoc_not. Qed.

Lemma recreate_other (fs : filesystem) (q : path) :
  ¬ path_of dirName `prefix_of` q → recreate fs !! q = fs !! q.
Proof.
  intros Hq. unfold recreate. rewrite mkdir_other by (by intros ->).
  destruct (QDir_exists fs _); [|done]. by apply removeRecursively_other.
Qed.

Lemma recreate_isDir (fs : filesystem) :
  isDir fs (path_of m_p2poolPath) = true →
  isFile fs (path_of dirName) = false →
  isDir (recreate fs) (path_of dirName) = true.
Proof.
  intros Hi Hf. unfold recreate, QDir_exists.
  destruct (fs !! path_of dirName) as [[]|] eqn:Hs.
  - unfold isFile in Hf. by rewrite Hs in Hf.
  - apply mkdir_isDir.
    + apply removeRecursively_below; [|done]. unfold isDir. by rewrite Hs.
    + rewrite parent_dirName. unfold isDir.
      by rewrite removeRecursively_other by apply stats_not_above_install.
  - apply mkdir_isDir; [done|]. by rewrite parent_dirName.
Qed.

Lemma recreate_empty (fs : filesystem) (q : path) :
  well_formed fs →
  isFile fs (path_of dirName) = false →
  path_of dirName `prefix_of` q → q ≠ path_of dirName →
  recreate fs !! q = None.
Proof.
  intros Hwf Hf Hpre Hne. unfold recreate, QDir_exists.
  rewrite mkdir_other by done.
  destruct (fs !! path_of dirName) as [[]|] eqn:Hs.
  - unfold isFile in Hf. by rewrite Hs in Hf.
  - apply removeRecursively_below; [|done]. unfold isDir. by rewrite Hs.
  - by apply (nothing_below_missing fs (path_of dirName)).
Qed.

End Files.

(** ** The events *)

Lemma signals_snoc (t : list Event) (e : Event) :
  signals (t ++ [e]) = signals t ++ match e with Emit s => [s] | _ => [] end.
Proof. unfold signals. rewrite omap_app. by destruct e. Qed.

Lemma requests_snoc (t : list Event) (e : Event) :
  requests (t ++ [e]) = requests t ++ match e with HttpGet r => [r] | _ => [] end.
Proof. unfold requests. rewrite omap_app. by destruct e. Qed.

Lemma commands_snoc (t : list Event) (e : Event) :
  commands (t ++ [e])
  = commands t ++ match e with Execute p a => [(p, a)] | _ => [] end.
Proof. unfold commands. rewrite omap_app. by destruct e. Qed.

Lemma signals_gets (t : list Event) (sent : list Request) :
  signals (t ++ map HttpGet sent) = signals t.
Proof.
  unfold signals. rewrite omap_app.
  assert (omap (λ e, match e with Emit s => Some s | _ => None end)
               (map HttpGet sent) = []) as ->; [|by rewrite app_nil_r].
  by induction sent.
Qed.

Lemma commands_gets (t : list Event) (sent : list Request) :
  commands (t ++ map HttpGet sent) = commands t.
Proof.
  unfold commands. rewrite omap_app.
  assert (omap (λ e, match e with Execute p a => Some (p, a) | _ => None end)
               (map HttpGet sent) = []) as ->; [|by rewrite app_nil_r].
  by induction sent.
Qed.

(** ** [getStatus] *)

Lemma toLatin1_latin1 (c : ascii) : QChar_toLatin1 (N_of_ascii c) = c.
Proof.
  unfold QChar_toLatin1. pose proof (N_ascii_bounded c) as Hc.
  destruct (N.leb_spec (N_of_ascii c) 255); [|lia]. apply ascii_N_embedding.
Qed.

Lemma scanWord_no_space (l : list ascii) :
  Forall (λ c, QChar_isSpace (N_of_ascii c) = false) l →
  skipSpace (map N_of_ascii l) = map N_of_ascii l
  ∧ map QChar_toLatin1 (scanWord (map N_of_ascii l)) = l.
Proof.
  induction 1 as [|c l Hc Hl [_ IH]]; [done|]. simpl. rewrite Hc.
  split; [done|]. simpl. by rewrite toLatin1_latin1, IH.
Qed.

(** Read through a Latin-1 codec, a file without white space comes out
    whole. *)
Lemma readWord_whole (s : string) :
  Forall (λ c, QChar_isSpace (N_of_ascii c) = false) (list_ascii_of_string s) →
  readWord (latin1 s) = s.
Proof.
  intros Hs. unfold readWord, latin1.
  destruct (scanWord_no_space _ Hs) as [-> ->].
  apply string_of_list_ascii_of_string.
Qed.

Section Status.
Context `{Env}.

Lemma getStatus_not_file (st : State) :
  isFile (files st) (path_of statsPath) = false ∨ started st = false →
  getStatus st = emit (p2poolStatus (started st) 0) st.
Proof.
  intros Hst. unfold getStatus.
  destruct Hst as [-> | ->]; [done|]. by rewrite orb_true_r.
Qed.

(** What a poll of the running daemon reports: the number found under
    [current_hashrate] in the first word of the statistics file. *)
Lemma getStatus_polling (st : State) (data : string) :
  files st !! path_of statsPath = Some (File data) →
  started st = true →
  getStatus st
  = emit (p2poolStatus true
            (toInt (value (object (fromJson (readWord (codecForLocale data))))
                          "current_hashrate"))) st.
Proof.
  intros Hf Hs. unfold getStatus, isFile, QFile_read. by rewrite Hf, Hs.
Qed.

(** C8: when the statistics file does not exist or [started] is false,
    [getStatus] emits [p2poolStatus(started, 0)] and does nothing else; with
    [started] true and no file the signal is [p2poolStatus(true, 0)]. *)
Theorem getStatus_idle (st : State) :
  files st !! path_of statsPath = None ∨ started st = false →
  getStatus st = emit (p2poolStatus (started st) 0) st
  ∧ (started st = true →
     signals (trace (getStatus st)) = signals (trace st) ++ [p2poolStatus true 0]).
Proof.
  intros Hst.
  assert (getStatus st = emit (p2poolStatus (started st) 0) st) as Hg.
  { apply getStatus_not_file. destruct Hst as [Hf|Hs]; [left|by right].
    unfold isFile. by rewrite Hf. }
  split; [done|]. intros Hs. rewrite Hg, Hs. simpl. apply signals_snoc.
Qed.

End Status.

(** ** [start] *)

Lemma contains_pair (a b x : string) :
  a ≠ x → b ≠ x → contains [a; b] x = false.
Proof.
  intros Ha Hb. apply contains_false. rewrite !elem_of_cons, elem_of_nil.
  by intros [<-|[<-|[]]].
Qed.

Lemma contains_single (a x : string) : a ≠ x → contains [a] x = false.
Proof.
  intros Ha. apply contains_false. rewrite elem_of_cons, elem_of_nil.
  by intros [<-|[]].
Qed.

Section Start.
Context `{Env}.

Lemma custom_flags_data_api (flags : string) :
  contains (custom_flags flags) "--data-api"
  = contains (flag_tokens flags) "--data-api".
Proof.
  unfold custom_flags. destruct (contains (flag_tokens flags) "--local-api"); [done|].
  simpl. rewrite contains_app, contains_single by done. apply orb_false_r.
Qed.

Lemma assemble_without_data_api (flags address chain threads : string)
    (fs : filesystem) :
  contains (flag_tokens flags) "--data-api" = false →
  assemble flags address chain threads fs
  = (mining_flags address chain threads
       (custom_flags flags ++ ["--data-api"; dirName]), recreate fs).
Proof.
  intros Hd. unfold assemble. by rewrite custom_flags_data_api, Hd.
Qed.

Lemma assemble_with_data_api (flags address chain threads : string)
    (fs : filesystem) :
  contains (flag_tokens flags) "--data-api" = true →
  assemble flags address chain threads fs
  = (mining_flags address chain threads (custom_flags flags), fs).
Proof.
  intros Hd. unfold assemble. by rewrite custom_flags_data_api, Hd.
Qed.

Lemma assemble_files (flags address chain threads : string) (fs : filesystem) :
  (assemble flags address chain threads fs).2
  = if contains (flag_tokens flags) "--data-api" then fs else recreate fs.
Proof.
  destruct (contains (flag_tokens flags) "--data-api") eqn:Hd.
  - by rewrite assemble_with_data_api.
  - by rewrite assemble_without_data_api.
Qed.

(** C9: when the detached launch fails, [start] leaves [started] false,
    returns false and emits [p2poolStartFailure] once; when it succeeds,
    [started] is true, [start] returns true and no signal is emitted. *)
Theorem start_reports (flags address chain threads : string) (st : State) :
  (let r := start flags address chain threads false st in
   r.1 = false ∧ started r.2 = false
   ∧ signals (trace r.2) = signals (trace st) ++ [p2poolStartFailure])
  ∧ (let r := start flags address chain threads true st in
     r.1 = true ∧ started r.2 = true
     ∧ signals (trace r.2) = signals (trace st)).
Proof.
  unfold start. destruct (assemble flags address chain threads (files st)) as [args fs].
  split; simpl; repeat split.
  - by rewrite !signals_snoc, app_nil_r.
  - by rewrite signals_snoc, app_nil_r.
Qed.

(** The argument list of [assemble] is the one the specification
    describes unless the thread count is the text [--wallet]. *)
Lemma assemble_by_tokens (flags address chain threads : string) (fs : filesystem) :
  threads ≠ "--wallet" →
  (assemble flags address chain threads fs).1
  = arguments_by_tokens flags address chain threads.
Proof.
  intros Ht. unfold assemble, custom_flags, mining_flags, arguments_by_tokens.
  pose proof (dirName_not_flag "--start-mining") as Hd1.
  pose proof (dirName_not_flag "--wallet") as Hd2.
  destruct (contains (flag_tokens flags) "--local-api") eqn:H1,
           (contains (flag_tokens flags) "--data-api") eqn:H2,
           (contains (flag_tokens flags) "--start-mining") eqn:H3,
           (contains (flag_tokens flags) "--wallet") eqn:H4,
           (decide (chain = "mini")) as [Hc|Hc];
    simpl;
    rewrite ?contains_app, ?H1, ?H2, ?H3, ?H4, ?(contains_single "--local-api"),
      ?(contains_pair "--data-api" dirName), ?(contains_single "--mini"),
      ?(contains_pair "--start-mining" threads) by (done || by auto);
    simpl;
    rewrite ?contains_app, ?H1, ?H2, ?H3, ?H4, ?(contains_single "--local-api"),
      ?(contains_pair "--data-api" dirName), ?(contains_single "--mini"),
      ?(contains_pair "--start-mining" threads) by (done || by auto);
    simpl;
    rewrite ?contains_app, ?H1, ?H2, ?H3, ?H4, ?(contains_single "--local-api"),
      ?(contains_pair "--data-api" dirName), ?(contains_single "--mini"),
      ?(contains_pair "--start-mining" threads) by (done || by auto);
    simpl; by rewrite <- ?app_assoc, ?app_nil_r.
Qed.

(** The flag [x] is none of the texts listed, the stats directory's name
    among them. *)
Ltac absent :=
  let Hin := fresh "Hin" in
  apply contains_false; rewrite ?elem_of_cons, elem_of_nil; intros Hin;
  repeat (destruct Hin as [Hin|Hin]); try done;
  by (symmetry in Hin; revert Hin; apply dirName_not_flag).

(** C4, as the code has it: for every flags string, wallet address, chain
    and thread count other than the text [--wallet], the argument list
    [start] builds is the one obtained when each of the four containment
    checks looks at the split tokens of [flags] only. *)
Theorem checks_see_tokens (flags address chain threads : string)
    (launched : bool) (st : State) :
  threads ≠ "--wallet" →
  (assemble flags address chain threads (files st)).1
  = arguments_by_tokens flags address chain threads
  ∧ ∃ p, m_p2poold (start flags address chain threads launched st).2 = Some p
         ∧ arguments p = arguments_by_tokens flags address chain threads.
Proof.
  intros Ht. unfold start.
  pose proof (assemble_by_tokens flags address chain threads (files st) Ht) as Ha.
  destruct (assemble flags address chain threads (files st)) as [args fs].
  split; [done|]. simpl in Ha. subst args.
  eexists. by destruct launched.
Qed.

(** C5: with no flags, chain [mini], 4 threads and wallet [abc] the
    argument list is [--local-api --data-api <statsDir> --start-mining 4
    --mini --wallet abc], and the stats directory exists in the file system
    the launch starts from (for an install directory that exists and holds
    no regular file called [stats]). *)
Theorem start_default_arguments (launched : bool) (st : State) :
  isDir (files st) (path_of m_p2poolPath) = true →
  isFile (files st) (path_of dirName) = false →
  let args := ["--local-api"; "--data-api"; dirName; "--start-mining"; "4";
               "--mini"; "--wallet"; "abc"] in
  ∃ fs, assemble EmptyString "abc" "mini" "4" (files st) = (args, fs)
        ∧ isDir fs (path_of dirName) = true
        ∧ start EmptyString "abc" "mini" "4" launched st
          = launch args launched (set_files fs st)
        ∧ StartDetached {| program := m_p2pool; arguments := args;
                           workingDirectory := m_p2poolPath |}
          ∈ trace (start EmptyString "abc" "mini" "4" launched st).2.
Proof.
  intros Hi Hf args.
  assert (assemble EmptyString "abc" "mini" "4" (files st)
          = (args, recreate (files st))) as Ha.
  { rewrite assemble_without_data_api by done.
    unfold mining_flags, custom_flags. simpl.
    assert (contains ["--local-api"; "--data-api"; dirName] "--start-mining"
            = false) as -> by absent.
    simpl.
    assert (contains ["--local-api"; "--data-api"; dirName; "--start-mining";
                      "4"; "--mini"] "--wallet" = false) as -> by absent.
    done. }
  exists (recreate (files st)). split; [done|]. split; [by apply recreate_isDir|].
  unfold start. rewrite Ha. split; [done|].
  unfold launch. destruct launched; simpl.
  - apply elem_of_app. right. apply list_elem_of_here.
  - rewrite elem_of_app. left. apply elem_of_app. right. apply list_elem_of_here.
Qed.

End Start.

(** ** A thread on its own runs the method *)

Section Alone.
Context `{Env}.

Lemma alone_add (n k : nat) (t : Thread) (st : State) (m : option nat) :
  alone (n + k) t st m
  = let '(t', st', m') := alone n t st m in alone k t' st' m'.
Proof.
  revert t st m. induction n as [|n IH]; intros t st m; simpl; [done|].
  destruct (thread_step 0 t st m) as [[[t' st'] m']|] eqn:Hstep; [apply IH|].
  destruct k; simpl; by rewrite ?Hstep.
Qed.

(** From its first line a [start] reaches line 206 with the arguments
    assembled, the stats directory dealt with and the process object
    replaced, and nothing else changed. *)
Lemma alone_start_before_launch
    (flags address chain threads : string) (launched : bool) (st : State) :
  let p := {| program := m_p2pool;
              arguments := (assemble flags address chain threads (files st)).1;
              workingDirectory := m_p2poolPath |} in
  ∃ n, alone n (Start_begin flags address chain threads launched) st None
       = (Start_launch p launched,
          set_process p
            (set_files (assemble flags address chain threads (files st)).2 st),
          Some 0).
Proof.
  unfold assemble.
  destruct (contains (custom_flags flags) "--data-api") eqn:Hd; simpl.
  - exists 3. simpl. by rewrite Hd.
  - destruct (QDir_exists (files st) (path_of dirName)) eqn:He.
    + exists 6. simpl. rewrite Hd. simpl. rewrite He. simpl.
      unfold recreate. by rewrite He.
    + exists 5. simpl. rewrite Hd. simpl. rewrite He. simpl.
      unfold recreate. by rewrite He.
Qed.

Lemma alone_launch (args : list string) (launched : bool) (st : State) :
  let p := {| program := m_p2pool; arguments := args;
              workingDirectory := m_p2poolPath |} in
  alone 4 (Start_launch p launched) (set_process p st) (Some 0)
  = (Done (Some (launch args launched st).1), (launch args launched st).2, None).
Proof. unfold launch. simpl. by destruct launched. Qed.

(** A [start] thread on its own does what [start] does. *)
Lemma alone_start
    (flags address chain threads : string) (launched : bool) (st : State) :
  ∃ n, alone n (Start_begin flags address chain threads launched) st None
       = (Done (Some (start flags address chain threads launched st).1),
          (start flags address chain threads launched st).2, None).
Proof.
  destruct (alone_start_before_launch flags address chain threads launched st)
    as [n Hn].
  exists (n + 4). rewrite alone_add, Hn. unfold start.
  destruct (assemble flags address chain threads (files st)) as [args fs].
  simpl fst. simpl snd. apply alone_launch.
Qed.

(** An [exit] thread on its own does what [exit] does. *)
Lemma alone_exit (st : State) :
  alone 4 Exit_begin st None = (Done None, exit st, None).
Proof. unfold exit. simpl. destruct (started st) eqn:Hs; simpl; by rewrite ?Hs. Qed.

(** C10: when the flags hold no [--data-api], [start] has removed and
    recreated the stats directory and replaced the process object by the
    time it reaches the launch, and both effects are there when [start]
    returns, also when it returns false (for a well-formed file system whose
    install directory exists and holds no regular file called [stats]). *)
Theorem start_effects_persist
    (flags address chain threads : string) (launched : bool) (st : State) :
  contains (flag_tokens flags) "--data-api" = false →
  well_formed (files st) →
  isDir (files st) (path_of m_p2poolPath) = true →
  isFile (files st) (path_of dirName) = false →
  let r := start flags address chain threads launched st in
  let p := {| program := m_p2pool;
              arguments := (assemble flags address chain threads (files st)).1;
              workingDirectory := m_p2poolPath |} in
  r.1 = launched
  ∧ files r.2 = recreate (files st)
  ∧ isDir (files r.2) (path_of dirName) = true
  ∧ (∀ q, path_of dirName `prefix_of` q → q ≠ path_of dirName →
          files r.2 !! q = None)
  ∧ m_p2poold r.2 = Some p
  ∧ ∃ n before,
      alone n (Start_begin flags address chain threads launched) st None
      = (Start_launch p launched, before, Some 0)
      ∧ files before = files r.2 ∧ m_p2poold before = m_p2poold r.2
      ∧ trace before = trace st.
Proof.
  intros Hd Hwf Hi Hf r p.
  destruct (alone_start_before_launch flags address chain threads launched st)
    as [n Hn].
  assert (files r.2 = recreate (files st) ∧ m_p2poold r.2 = Some p
          ∧ r.1 = launched) as (Hfiles & Hp & Hr).
  { subst r p. unfold start. rewrite assemble_without_data_api by done.
    unfold launch. by destruct launched. }
  repeat split; try done.
  - rewrite Hfiles. by apply recreate_isDir.
  - intros q Hq Hne. rewrite Hfiles. by apply recreate_empty.
  - exists n. eexists. split; [exact Hn|]. simpl.
    by rewrite Hfiles, Hp, assemble_files, Hd.
Qed.

End Alone.

(** ** Sequences of [start] and [exit] *)

Section Sequences.
Context `{Env}.

Lemma constructor_stats (fs : filesystem) :
  files (P2PoolManager fs) !! path_of dirName = fs !! path_of dirName.
Proof.
  unfold P2PoolManager. simpl. destruct os; try done.
  destruct (isDir fs (path_of m_p2poolPath)); [done|].
  apply mkdir_other. rewrite path_of_dirName. intros Heq.
  apply (f_equal length) in Heq. rewrite length_app in Heq. simpl in Heq. lia.
Qed.

Lemma isDir_not_isFile (fs : filesystem) (p : path) :
  isDir fs p = true → isFile fs p = false.
Proof. unfold isDir, isFile. by destruct (fs !! p) as [[]|]. Qed.

Lemma start_keeps_invariant (flags address chain threads : string) (st : State) :
  contains (flag_tokens flags) "--data-api" = false →
  stats_follow_started st →
  stats_follow_started (start flags address chain threads true st).2.
Proof.
  intros Hd (Hi & Hf & Hs). unfold start.
  rewrite assemble_without_data_api by done. unfold stats_follow_started. simpl.
  pose proof (recreate_isDir (files st) Hi Hf) as Hr.
  split; [|split; [by apply isDir_not_isFile|done]].
  unfold isDir. rewrite recreate_other by apply stats_not_above_install. apply Hi.
Qed.

Lemma exit_keeps_invariant (st : State) :
  stats_follow_started st → stats_follow_started (exit st).
Proof.
  intros Hinv. unfold exit. destruct (started st) eqn:Hst; [|done].
  destruct Hinv as (Hi & Hf & Hs). rewrite Hst in Hs.
  unfold stats_follow_started. simpl.
  assert (QDir_removeRecursively (files st) (path_of dirName) !! path_of dirName
          = None) as Hgone by (by apply removeRecursively_below).
  unfold isDir, isFile. rewrite Hgone.
  rewrite removeRecursively_other by apply stats_not_above_install.
  by split.
Qed.

Lemma calls_keep_invariant (cs : list Call) (st : State) :
  Forall plain_call cs → stats_follow_started st →
  stats_follow_started (calls cs st).
Proof.
  intros Hcs. revert st. induction Hcs as [|c cs Hc _ IH]; intros st Hst; [done|].
  apply IH. destruct c as [flags address chain threads launched|]; simpl.
  - destruct Hc as [Hd ->]. by apply start_keeps_invariant.
  - by apply exit_keeps_invariant.
Qed.

(** C2, as the code has it: after any sequence of [exit] calls and of
    [start] calls whose flags hold no [--data-api] and whose launch
    succeeds, made on a manager constructed where the install directory
    exists and nothing is called [stats], the stats directory exists if and
    only if [started] is true. *)
Theorem stats_dir_iff_started (fs : filesystem) (cs : list Call) :
  isDir (files (P2PoolManager fs)) (path_of m_p2poolPath) = true →
  fs !! path_of dirName = None →
  Forall plain_call cs →
  let st := calls cs (P2PoolManager fs) in
  isDir (files st) (path_of dirName) = true ↔ started st = true.
Proof.
  intros Hi Hs Hcs st.
  assert (stats_follow_started st) as (_ & _ & Hst).
  { apply calls_keep_invariant; [done|]. unfold stats_follow_started.
    split; [done|]. unfold isFile, isDir. by rewrite constructor_stats, Hs. }
  by rewrite Hst.
Qed.

End Sequences.

(** ** [download] *)

Section Download.
Context `{Env}.

(** Only the fields called [Location] matter to the loop. *)
Lemma redirect_only_location (fields : list (string * string))
    (acc : list Request * option Response) :
  fold_left redirect fields acc
  = fold_left redirect (filter (λ f, f.1 = "Location") fields) acc.
Proof.
  revert acc. induction fields as [|f fields IH]; intros acc; [done|].
  rewrite filter_cons. simpl. destruct (decide (f.1 = "Location")) as [Hf|Hf].
  - simpl. apply IH.
  - rewrite <- IH. unfold redirect at 2. by rewrite decide_False.
Qed.

Lemma trace_verify (last : Response) (st : State) :
  ∃ es, trace (verify last st) = trace st ++ es
        ∧ requests es = [] ∧ ∃ s, signals es = [s].
Proof.
  unfold verify. destruct (decide (sha256_hex (m_body last) ≠ validHash)).
  - eexists [_]. simpl. eauto.
  - unfold install. destruct (isInstalled _); simpl;
      eexists [_; _]; rewrite <- app_assoc; simpl; eauto.
Qed.

Lemma requests_app (t t' : list Event) :
  requests (t ++ t') = requests t ++ requests t'.
Proof. apply omap_app. Qed.

Lemma signals_app (t t' : list Event) :
  signals (t ++ t') = signals t ++ signals t'.
Proof. apply omap_app. Qed.

(** C6, as the code has it: when the first response has status 302 and
    exactly one header field called [Location], [download] sends exactly one
    further GET, to the host of the [Location] URL with its path, a question
    mark and its query, whatever the status of the answer; when that GET
    fails, the attempt ends with [ConnectionIssue] and the file system as it
    was. *)
Theorem one_location_one_get (st : State) (first : Response) (location : string) :
  invoke_get [] first_request = Some first →
  m_response_code first = 302%Z →
  filter (λ f, f.1 = "Location") (m_etc_fields first) = [("Location", location)] →
  let st' := download st in
  let again := redirected_request location in
  req_host again = url_host (toQUrl location)
  ∧ req_uri again
    = url_path (toQUrl location) +:+ "?" +:+ url_query (toQUrl location)
  ∧ requests (trace st') = requests (trace st) ++ [first_request; again]
  ∧ (invoke_get [first_request] again = None →
     signals (trace st')
     = signals (trace st) ++ [p2poolDownloadFailure ConnectionIssue]
     ∧ files st' = files st).
Proof.
  intros Hfirst Hcode Hloc st' again. split; [done|]. split; [done|].
  subst st'. unfold download. rewrite Hfirst, Hcode. simpl.
  rewrite Hcode. simpl. rewrite redirect_only_location, Hloc. simpl.
  unfold redirect. simpl. fold again.
  destruct (invoke_get [first_request] again) as [last|] eqn:Hagain.
  - split; [|done].
    destruct (trace_verify last
                (record_all [HttpGet first_request; HttpGet again] st))
      as (es & -> & Hes & _).
    simpl. by rewrite !requests_app, Hes, app_nil_r.
  - simpl. split.
    + by rewrite requests_snoc, requests_app, app_nil_r.
    + intros _. split; [|done].
      by rewrite signals_snoc, signals_app, app_nil_r.
Qed.

(** C7: when the attempt gets as far as a response (the first one is not a
    404 and the last GET succeeded) whose body's SHA-256 digest in
    lower-case hex differs from the expected hash, [download] emits
    [HashVerificationFailed] and nothing else, runs no program and leaves
    the file system as it was: no archive is written, nothing is
    extracted. *)
Theorem hash_mismatch_writes_nothing
    (st : State) (first last : Response) (sent : list Request) :
  invoke_get [] first_request = Some first →
  m_response_code first ≠ 404%Z →
  follow (Some first) = (sent, Some last) →
  sha256_hex (m_body last) ≠ validHash →
  let st' := download st in
  signals (trace st')
  = signals (trace st) ++ [p2poolDownloadFailure HashVerificationFailed]
  ∧ files st' = files st
  ∧ commands (trace st') = commands (trace st).
Proof.
  intros Hfirst Hcode Hfollow Hhash st'. subst st'. unfold download.
  rewrite Hfirst. apply Z.eqb_neq in Hcode. rewrite Hcode, Hfollow.
  unfold verify. rewrite decide_True by done. simpl.
  by rewrite signals_snoc, commands_snoc, signals_gets, commands_gets, app_nil_r.
Qed.

End Download.

(** ** Concurrent calls *)

Section Threads.
Context `{Env}.

Lemma thread_step_mutex (i : nat) (t t' : Thread) (st st' : State)
    (m m' : option nat) :
  thread_step i t st m = Some (t', st', m') →
  (locked t = true → m = Some i) →
  (locked t' = true → m' = Some i)
  ∧ (∀ j, j ≠ i → m = Some j → m' = Some j).
Proof.
  intros Hstep Hheld.
  destruct t; simpl in Hstep; repeat case_match; simplify_eq; simpl in *;
    (split; [try done; auto|]); intros j Hj Hm; try done.
  specialize (Hheld eq_refl). congruence.
Qed.

Lemma step_keeps_holder (i : nat) (c c' : Config) :
  step i c = Some c' → held_by_locked c → held_by_locked c'.
Proof.
  unfold step. intros Hstep Hheld.
  destruct (threads c !! i) as [t|] eqn:Ht; [|done].
  destruct (thread_step i t (shared c) (m_p2poolMutex c)) as [[[t' st'] m']|] eqn:Hs;
    [|done].
  simplify_eq.
  destruct (thread_step_mutex _ _ _ _ _ _ _ Hs (Hheld i t Ht)) as [Hin Hout].
  intros j tj Hj Hl. simpl in *.
  destruct (decide (i = j)) as [->|Hne].
  - rewrite list_lookup_insert_eq in Hj by (by eapply lookup_lt_Some).
    simplify_eq. by apply Hin.
  - rewrite list_lookup_insert_ne in Hj by done.
    apply Hout; [done|]. by eapply Hheld.
Qed.

Lemma reachable_holder (st : State) (ts : list Thread) (c : Config) :
  Forall (λ t, fresh t = true) ts → reachable (spawn st ts) c → held_by_locked c.
Proof.
  intros Hts Hreach. induction Hreach as [|c i c' _ IH Hstep].
  - intros i t Ht Hl. simpl in Ht.
    pose proof (Forall_lookup_1 _ _ _ _ Hts Ht) as Hf. by destruct t.
  - by eapply step_keeps_holder.
Qed.

Lemma run_reachable (schedule : list nat) (c c' : Config) :
  run schedule c = Some c' → reachable c c'.
Proof.
  assert (∀ c0 c1, reachable c0 c1 → run schedule c1 = Some c' → reachable c0 c')
    as Hgen; [|apply Hgen; constructor].
  induction schedule as [|i schedule IH]; intros c0 c1 Hc1 Hrun; simpl in Hrun.
  - by simplify_eq.
  - destruct (step i c1) as [c2|] eqn:Hstep; [|done].
    eapply IH; [|done]. by eapply reachable_step.
Qed.

Lemma unguarded_step (i : nat) (t : Thread) (c : Config) :
  threads c !! i = Some t → unguarded t = true →
  ∃ c', step i c = Some c' ∧ m_p2poolMutex c' = m_p2poolMutex c.
Proof.
  intros Ht Hu. unfold step. rewrite Ht.
  destruct t; try done; simpl; repeat case_match; simplify_eq; eauto.
Qed.

(** C3, as the code has it: [start] holds the mutex from line 196 to its
    return, so whatever calls of [start] and [exit] run concurrently, two
    threads inside that part are one and the same; [exit] does not take the
    mutex, and neither do the lines of [start] before line 196, the
    recreation of the stats directory among them: a thread at such a line
    takes its step whoever holds the mutex. *)
Theorem mutex_guards_launch_only (st : State) (ts : list Thread) (c : Config)
    (i j : nat) (ti tj : Thread) :
  Forall (λ t, fresh t = true) ts →
  reachable (spawn st ts) c →
  threads c !! i = Some ti →
  threads c !! j = Some tj →
  (locked ti = true → locked tj = true → i = j)
  ∧ (unguarded ti = true → ∃ c', step i c = Some c' ∧ m_p2poolMutex c' = m_p2poolMutex c).
Proof.
  intros Hts Hreach Hi Hj. split.
  - intros Hli Hlj.
    pose proof (reachable_holder st ts c Hts Hreach) as Hheld.
    pose proof (Hheld i ti Hi Hli) as Hmi.
    pose proof (Hheld j tj Hj Hlj) as Hmj. congruence.
  - by apply unguarded_step.
Qed.

End Threads.

(** ** The sample installation at work *)

(** C1 on the code: with [started] true and a statistics file holding
    [{"current_hashrate": 1234}], [getStatus] emits [p2poolStatus(true, 0)]:
    the stream hands over the first word, [{"current_hashrate":], which is
    no JSON document.  Without the space the rate is reported. *)
Theorem getStatus_spaced_json :
  let E := sample_env offline in
  QFile_read (mining spaced_json) (path_of statsPath) = spaced_json
  ∧ readWord (codecForLocale spaced_json) = "{" +:+ quoted "current_hashrate" +:+ ":"
  ∧ trace (getStatus (running (mining spaced_json))) = [Emit (p2poolStatus true 0)]
  ∧ trace (getStatus (running (mining compact_json)))
    = [Emit (p2poolStatus true 1234)].
Proof. vm_compute. by repeat split. Qed.

Lemma getStatus_idle_witness :
  signals (trace (getStatus (H := sample_env offline) (running installed)))
  = [p2poolStatus true 0].
Proof.
  apply (getStatus_idle (H := sample_env offline) (running installed)).
  - left. vm_compute. reflexivity.
  - reflexivity.
Defined.

(** C2 on the code: a [start] given [--data-api /custom] that launches
    leaves [started] true and no stats directory; a [start] without it whose
    launch fails leaves the stats directory and [started] false. *)
Lemma stats_dir_not_iff_started :
  let E := sample_env offline in
  let custom := calls [CallStart "--data-api /custom" "abc" "main" "4" true]
                      (P2PoolManager installed) in
  let failed := calls [CallStart EmptyString "abc" "main" "4" false]
                      (P2PoolManager installed) in
  ¬ (isDir (files custom) (path_of dirName) = true ↔ started custom = true)
  ∧ ¬ (isDir (files failed) (path_of dirName) = true ↔ started failed = true).
Proof.
  vm_compute. split; intros [Hdir Hstarted].
  - by specialize (Hstarted eq_refl).
  - by specialize (Hdir eq_refl).
Qed.

Lemma stats_dir_iff_started_witness :
  let E := sample_env offline in
  let st := calls [CallStart EmptyString "abc" "main" "4" true; CallExit;
                   CallExit; CallStart "--mini" "abc" "mini" "2" true]
                  (P2PoolManager installed) in
  isDir (files st) (path_of dirName) = true ↔ started st = true.
Proof.
  apply (stats_dir_iff_started (H := sample_env offline) installed).
  - vm_compute. reflexivity.
  - vm_compute. reflexivity.
  - repeat constructor.
Defined.

(** C4 on the code: with the thread count [--wallet] the check for
    [--wallet] finds the thread count [start] itself appended, and the
    wallet address is left out. *)
Lemma wallet_check_sees_threads :
  let E := sample_env offline in
  flag_tokens EmptyString = []
  ∧ (assemble EmptyString "abc" "main" "--wallet" installed).1
    = ["--local-api"; "--data-api"; "/opt/monero-gui/stats/";
       "--start-mining"; "--wallet"]
  ∧ arguments_by_tokens EmptyString "abc" "main" "--wallet"
    = ["--local-api"; "--data-api"; "/opt/monero-gui/stats/";
       "--start-mining"; "--wallet"; "--wallet"; "abc"].
Proof. vm_compute. by repeat split. Qed.

Lemma checks_see_tokens_witness :
  (assemble (H := sample_env offline)
     "--wallet 4Abc  --loglevel 2" "abc" "mini" "4" installed).1
  = ["--wallet"; "4Abc"; "--loglevel"; "2"; "--local-api"; "--data-api";
     "/opt/monero-gui/stats/"; "--start-mining"; "4"; "--mini"].
Proof.
  refine (eq_trans (proj1 (checks_see_tokens (H := sample_env offline)
                             "--wallet 4Abc  --loglevel 2" "abc" "mini" "4"
                             true (running installed) _)) _).
  - discriminate.
  - vm_compute. reflexivity.
Defined.

Lemma start_default_arguments_witness :
  let E := sample_env offline in
  ∃ fs, assemble EmptyString "abc" "mini" "4" (files (P2PoolManager installed))
        = (["--local-api"; "--data-api"; dirName; "--start-mining"; "4";
            "--mini"; "--wallet"; "abc"], fs)
        ∧ isDir fs (path_of dirName) = true.
Proof.
  intros E.
  assert (isDir (files (P2PoolManager installed)) (path_of m_p2poolPath) = true)
    as Hi by (vm_compute; reflexivity).
  assert (isFile (files (P2PoolManager installed)) (path_of dirName) = false)
    as Hf by (vm_compute; reflexivity).
  destruct (start_default_arguments true (P2PoolManager installed) Hi Hf)
    as (fs & Ha & Hd & _).
  exists fs. exact (conj Ha Hd).
Defined.

Lemma start_effects_persist_witness :
  let E := sample_env offline in
  let r := start "--loglevel 2" "abc" "main" "4" false
                 (running (mining compact_json)) in
  r.1 = false
  ∧ isDir (files r.2) (path_of dirName) = true
  ∧ files r.2 !! (path_of dirName ++ ["local"; "miner"]) = None.
Proof.
  intros E r.
  assert (contains (flag_tokens "--loglevel 2") "--data-api" = false) as Hd
    by (vm_compute; reflexivity).
  assert (well_formed (mining compact_json)) as Hwf
    by (apply (bool_decide_unpack _); vm_compute; exact I).
  assert (isDir (mining compact_json) (path_of m_p2poolPath) = true) as Hi
    by (vm_compute; reflexivity).
  assert (isFile (mining compact_json) (path_of dirName) = false) as Hf
    by (vm_compute; reflexivity).
  destruct (start_effects_persist "--loglevel 2" "abc" "main" "4" false
              (running (mining compact_json)) Hd Hwf Hi Hf)
    as (Hr & _ & Hdir & Hempty & _).
  split; [exact Hr|]. split; [exact Hdir|].
  apply Hempty.
  - by exists ["local"; "miner"].
  - intros Heq. apply (f_equal length) in Heq. rewrite length_app in Heq.
    simpl in Heq. lia.
Defined.

(** C6 on the code: a 302 without a [Location] field is followed by no
    further GET, and its own body goes to the hash check; a 302 with two
    [Location] fields is followed by two GETs. *)
Lemma redirect_without_location :
  let E := sample_env (redirecting [("Server", "GitHub.com")]) in
  let st := download (H := E) (P2PoolManager (H := E) installed) in
  let E2 := sample_env (redirecting [("Location", "https://a.example.org/x");
                                     ("Location", "https://b.example.org/y")]) in
  let st2 := download (H := E2) (P2PoolManager (H := E2) installed) in
  (m_response_code <$> invoke_get (Env := E) [] (first_request (H := E)))
  = Some 302%Z
  ∧ length (requests (trace st)) = 1
  ∧ signals (trace st) = [p2poolDownloadFailure HashVerificationFailed]
  ∧ length (requests (trace st2)) = 3.
Proof. vm_compute. by repeat split. Qed.

Lemma one_location_one_get_witness :
  let E := sample_env (redirecting
                         [("Server", "GitHub.com");
                          ("Location", "https://objects.example.org/p2pool.tar.gz?token=1")]) in
  let st' := download (P2PoolManager installed) in
  requests (trace st')
  = [first_request;
     {| req_host := "objects.example.org"; req_port := "443";
        req_uri := "/p2pool.tar.gz?token=1"; req_userAgent := "Mozilla/5.0" |}]
  ∧ signals (trace st') = [p2poolDownloadFailure ConnectionIssue].
Proof.
  intros E st'.
  destruct (one_location_one_get (P2PoolManager installed)
              {| m_response_code := 302;
                 m_etc_fields :=
                   [("Server", "GitHub.com");
                    ("Location", "https://objects.example.org/p2pool.tar.gz?token=1")];
                 m_body := EmptyString |}
              "https://objects.example.org/p2pool.tar.gz?token=1")
    as (_ & _ & Hrequests & Hfails).
  - reflexivity.
  - reflexivity.
  - vm_compute. reflexivity.
  - split; [exact Hrequests|]. apply Hfails. reflexivity.
Defined.

Lemma hash_mismatch_writes_nothing_witness :
  let E := sample_env (serving "not the archive") in
  let st := P2PoolManager installed in
  signals (trace (download st))
  = signals (trace st) ++ [p2poolDownloadFailure HashVerificationFailed]
  ∧ files (download st) = files st
  ∧ commands (trace (download st)) = commands (trace st).
Proof.
  intros E st.
  apply (hash_mismatch_writes_nothing st
           {| m_response_code := 200; m_etc_fields := [];
              m_body := "not the archive" |}
           {| m_response_code := 200; m_etc_fields := [];
              m_body := "not the archive" |}
           [first_request]).
  - reflexivity.
  - vm_compute. discriminate.
  - reflexivity.
  - vm_compute. discriminate.
Defined.

(** C3 on the code: while the [start] thread holds the mutex and is about
    to launch, the [exit] thread runs lines 220 to 226; the launch then sets
    [started], and [exit] removes the stats directory.  Both calls return,
    [start] with true, and [started] is true with no stats directory. *)
Lemma start_and_exit_interleave :
  let E := sample_env offline in
  let mid := after [0; 0; 0; 0; 0; 0; 1; 1; 1] race in
  let final := after [0; 0; 0; 0; 0; 0; 1; 1; 1; 0; 1; 0; 0] race in
  isDir (files (shared race)) (path_of dirName) = true
  ∧ started (shared race) = true
  ∧ m_p2poolMutex mid = Some 0
  ∧ locked <$> threads mid !! 0 = Some true
  ∧ threads mid !! 1 = Some Exit_remove
  ∧ threads final = [Done (Some true); Done None]
  ∧ started (shared final) = true
  ∧ isDir (files (shared final)) (path_of dirName) = false.
Proof. vm_compute. by repeat split. Qed.

Lemma mutex_guards_launch_only_witness :
  let E := sample_env offline in
  let c := after [0; 0; 0; 0; 0; 0; 1; 1; 1] race in
  0 = 0 ∧ ∃ c', step 1 c = Some c' ∧ m_p2poolMutex c' = m_p2poolMutex c.
Proof.
  intros E c.
  assert (reachable race c) as Hreach.
  { apply (run_reachable [0; 0; 0; 0; 0; 0; 1; 1; 1]). vm_compute. reflexivity. }
  destruct (mutex_guards_launch_only (shared race) (threads race) c 0 0
              (Start_launch
                 {| program := m_p2pool;
                    arguments := ["--local-api"; "--data-api"; dirName;
                                  "--start-mining"; "4"; "--wallet"; "abc"];
                    workingDirectory := m_p2poolPath |} true)
              (Start_launch
                 {| program := m_p2pool;
                    arguments := ["--local-api"; "--data-api"; dirName;
                                  "--start-mining"; "4"; "--wallet"; "abc"];
                    workingDirectory := m_p2poolPath |} true))
    as [Hsame _].
  - repeat constructor.
  - exact Hreach.
  - vm_compute. reflexivity.
  - vm_compute. reflexivity.
  - split; [by apply Hsame|].
    apply (mutex_guards_launch_only (shared race) (threads race) c 1 1
             Exit_remove Exit_remove); try done.
    repeat constructor.
Defined.

(** * Further properties of the methods *)

(** ** [download]: outcomes *)

Section DownloadOutcomes.
Context `{Env}.

(** The GETs the redirect loop sends: one for each field called
    [Location], in the order of the fields. *)
Lemma redirect_requests (fields : list (string * string))
    (acc : list Request * option Response) :
  (fold_left redirect fields acc).1
  = acc.1 ++ map (λ f, redirected_request f.2)
                 (filter (λ f, f.1 = "Location") fields).
Proof.
  revert acc. induction fields as [|f fields IH]; intros acc; simpl.
  - by rewrite app_nil_r.
  - rewrite IH, filter_cons. unfold redirect.
    destruct (decide (f.1 = "Location")); simpl; [|done].
    by rewrite <- app_assoc.
Qed.

Lemma follow_requests (first : option Response) :
  (follow first).1
  = first_request
    :: match first with
       | Some response =>
           if (m_response_code response =? 302)%Z
           then map (λ f, redirected_request f.2)
                    (filter (λ f, f.1 = "Location") (m_etc_fields response))
           else []
       | None => []
       end.
Proof.
  unfold follow. destruct first as [response|]; [|done].
  destruct (m_response_code response =? 302)%Z; [|done].
  by rewrite redirect_requests.
Qed.

Lemma commands_app (t t' : list Event) :
  commands (t ++ t') = commands t ++ commands t'.
Proof. apply omap_app. Qed.

(** [download] by the outcome of the GETs. *)
Lemma download_unfold (st : State) :
  download st
  = match invoke_get [] first_request with
    | Some response =>
        if (m_response_code response =? 404)%Z
        then emit (p2poolDownloadFailure BinaryNotAvailable)
                  (record_all (map HttpGet [first_request]) st)
        else
          let st1 := record_all (map HttpGet (follow (Some response)).1) st in
          match (follow (Some response)).2 with
          | None => emit (p2poolDownloadFailure ConnectionIssue) st1
          | Some last => verify last st1
          end
    | None =>
        emit (p2poolDownloadFailure ConnectionIssue)
             (record_all (map HttpGet [first_request]) st)
    end.
Proof.
  unfold download. destruct (invoke_get [] first_request) as [response|]; [|done].
  destruct (m_response_code response =? 404)%Z; [done|].
  by destruct (follow (Some response)).
Qed.

(** X1: the first GET answered with status 404 ends the attempt at once:
    [BinaryNotAvailable] is the only signal, one GET was sent (a [Location]
    field in the answer is not followed), no program is run and the file
    system is as it was. *)
Theorem download_not_found (st : State) (response : Response) :
  invoke_get [] first_request = Some response →
  m_response_code response = 404%Z →
  signals (trace (download st))
  = signals (trace st) ++ [p2poolDownloadFailure BinaryNotAvailable]
  ∧ requests (trace (download st)) = requests (trace st) ++ [first_request]
  ∧ commands (trace (download st)) = commands (trace st)
  ∧ files (download st) = files st.
Proof.
  intros Hget Hcode. rewrite download_unfold, Hget, Hcode. simpl.
  by rewrite signals_snoc, requests_snoc, commands_snoc, signals_app,
    requests_app, commands_app, !app_nil_r.
Qed.

(** X2: when the first GET fails at the transport level the attempt ends
    with [ConnectionIssue] as its only signal, after that one GET, with no
    program run and the file system as it was. *)
Theorem download_unreachable (st : State) :
  invoke_get [] first_request = None →
  signals (trace (download st))
  = signals (trace st) ++ [p2poolDownloadFailure ConnectionIssue]
  ∧ requests (trace (download st)) = requests (trace st) ++ [first_request]
  ∧ commands (trace (download st)) = commands (trace st)
  ∧ files (download st) = files st.
Proof.
  intros Hget. rewrite download_unfold, Hget. simpl.
  by rewrite signals_snoc, requests_snoc, commands_snoc, signals_app,
    requests_app, commands_app, !app_nil_r.
Qed.

End DownloadOutcomes.

(** ** The digest *)

Lemma round_length (v : list N) (kw : N * N) :
  length (Sha256.round v kw) = length v.
Proof. by destruct v as [|a [|b [|c [|d [|e [|f [|g [|h [|i v]]]]]]]]]. Qed.

Lemma compress_length (h block : list N) :
  length (Sha256.compress h block) = length h.
Proof.
  unfold Sha256.compress. rewrite length_zip_with.
  assert (∀ l v, length (fold_left Sha256.round l v) = length v) as Hfold.
  { induction l as [|kw l IH]; intros v; simpl; [done|].
    by rewrite IH, round_length. }
  rewrite Hfold. lia.
Qed.

Lemma digest_length (bytes : list N) : length (Sha256.digest bytes) = 8.
Proof.
  unfold Sha256.digest.
  assert (∀ bs h, length (fold_left Sha256.compress bs h) = length h) as Hfold.
  { induction bs as [|b bs IH]; intros h; simpl; [done|].
    by rewrite IH, compress_length. }
  rewrite Hfold. vm_compute. reflexivity.
Qed.

Lemma concat_map_length {A B : Type} (f : A → list B) (k : nat) (l : list A) :
  (∀ x, length (f x) = k) → length (concat (map f l)) = k * length l.
Proof.
  intros Hf. induction l as [|x l IH]; simpl; [lia|].
  rewrite length_app, Hf, IH. lia.
Qed.

Lemma string_of_list_ascii_length (l : list ascii) :
  String.length (string_of_list_ascii l) = length l.
Proof. induction l as [|c l IH]; simpl; [done|by rewrite IH]. Qed.

(** The digest [sha256_hex] gives has 64 characters, whatever the data. *)
Lemma sha256_hex_length (data : string) : String.length (sha256_hex data) = 64.
Proof.
  unfold sha256_hex.
  rewrite string_of_list_ascii_length.
  rewrite (concat_map_length Sha256.hex_byte 2) by done.
  rewrite (concat_map_length (Sha256.big_endian 4) 4) by done.
  by rewrite digest_length.
Qed.

Lemma requests_gets_all (t : list Event) (sent : list Request) :
  requests (t ++ map HttpGet sent) = requests t ++ sent.
Proof.
  rewrite requests_app. f_equal. unfold requests.
  induction sent as [|r sent IH]; [done|]. simpl. f_equal. exact IH.
Qed.

(** ** [download]: what every attempt does *)

Section DownloadAlways.
Context `{Env}.

Lemma remove_not_file (fs : filesystem) (p : path) :
  isFile (QFile_remove fs p) p = false.
Proof.
  unfold QFile_remove. destruct (isFile fs p) eqn:Hf; [|done].
  unfold isFile. by rewrite lookup_delete_eq.
Qed.

(** Lines 107-117: the archive is unpacked by one run of [tar] and is no
    longer a file afterwards; the signal says whether the binary is there. *)
Lemma install_outcome (data : string) (st : State) :
  let st' := install data st in
  isFile (files st') (path_of fileName) = false
  ∧ commands (trace st')
    = commands (trace st)
      ++ [("tar", ["-xzf"; fileName; "--strip=1"; "-C"; m_p2poolPath])]
  ∧ signals (trace st')
    = signals (trace st)
      ++ [if isInstalled st' then p2poolDownloadSuccess
          else p2poolDownloadFailure InstallationFailed]
  ∧ requests (trace st') = requests (trace st)
  ∧ started st' = started st ∧ m_p2poold st' = m_p2poold st.
Proof.
  unfold install. simpl.
  set (fs := QFile_remove _ _).
  set (st1 := set_files fs _).
  assert (isFile fs (path_of fileName) = false) as Hgone
    by apply remove_not_file.
  assert (∀ s, isInstalled (emit s st1) = isInstalled st1) as Hemit by done.
  destruct (isInstalled st1) eqn:Hi; rewrite ?Hemit, ?Hi; simpl;
    by rewrite !signals_snoc, !commands_snoc, !requests_snoc, !app_nil_r.
Qed.

(** X3: every attempt emits exactly one signal, a download signal, and
    leaves [started] and the process object alone.  Success is emitted only
    after the last response's body matched the expected hash, [tar] ran once
    on the archive, the archive was deleted and the binary is there;
    [InstallationFailed] only after the same steps with the binary missing;
    with any other failure no program ran and the file system is as it
    was. *)
Theorem download_outcome (st : State) :
  let st' := download st in
  let verified :=
    (∃ last, (follow (invoke_get [] first_request)).2 = Some last
             ∧ sha256_hex (m_body last) = validHash)
    ∧ commands (trace st')
      = commands (trace st)
        ++ [("tar", ["-xzf"; fileName; "--strip=1"; "-C"; m_p2poolPath])]
    ∧ isFile (files st') (path_of fileName) = false in
  ∃ s, signals (trace st') = signals (trace st) ++ [s]
       ∧ started st' = started st
       ∧ m_p2poold st' = m_p2poold st
       ∧ match s with
         | p2poolDownloadSuccess => verified ∧ isInstalled st' = true
         | p2poolDownloadFailure InstallationFailed =>
             verified ∧ isInstalled st' = false
         | p2poolDownloadFailure _ =>
             files st' = files st ∧ commands (trace st') = commands (trace st)
         | _ => False
         end.
Proof.
  intros st' verified. subst verified st'. rewrite download_unfold.
  destruct (invoke_get [] first_request) as [response|] eqn:Hget.
  - destruct (m_response_code response =? 404)%Z eqn:Hcode.
    + eexists. simpl. rewrite signals_snoc, signals_app, app_nil_r.
      repeat split. by rewrite commands_snoc, commands_app, !app_nil_r.
    + cbv zeta. destruct (follow (Some response)) as [sent [last|]] eqn:Hfollow;
        simpl fst; simpl snd.
      * unfold verify.
        destruct (decide (sha256_hex (m_body last) ≠ validHash)) as [Hne|Heq].
        -- eexists. simpl. rewrite signals_snoc, signals_gets.
           repeat split. by rewrite commands_snoc, commands_gets, app_nil_r.
        -- apply dec_stable in Heq.
           destruct (install_outcome (m_body last)
                       (record_all (map HttpGet sent) st))
             as (Harchive & Hcommands & Hsignals & _ & Hstarted & Hprocess).
           simpl in Hcommands, Hsignals, Hstarted, Hprocess.
           rewrite signals_gets in Hsignals. rewrite commands_gets in Hcommands.
           eexists. split; [exact Hsignals|]. split; [exact Hstarted|].
           split; [exact Hprocess|].
           destruct (isInstalled (install (m_body last) _)) eqn:Hi;
             (split; [|done]); (split; [by eauto|]); by split.
      * eexists. simpl. rewrite signals_snoc, signals_gets.
        repeat split. by rewrite commands_snoc, commands_gets, app_nil_r.
  - eexists. simpl. rewrite signals_snoc, signals_app, app_nil_r.
    repeat split. by rewrite commands_snoc, commands_app, !app_nil_r.
Qed.

(** X4: the GETs of an attempt are the first one and, when it was answered
    with status 302, one for each header field called [Location], in the
    order of the fields; every one of them goes to port 443 and carries the
    user agent drawn for the attempt. *)
Theorem download_requests (st : State) :
  let sent :=
    first_request
    :: match invoke_get [] first_request with
       | Some response =>
           if (m_response_code response =? 302)%Z
           then map (λ f, redirected_request f.2)
                    (filter (λ f, f.1 = "Location") (m_etc_fields response))
           else []
       | None => []
       end in
  requests (trace (download st)) = requests (trace st) ++ sent
  ∧ Forall (λ r, req_port r = "443" ∧ req_userAgent r = randomUserAgent) sent.
Proof.
  intros sent. split.
  - rewrite download_unfold. subst sent.
    destruct (invoke_get [] first_request) as [response|] eqn:Hget.
    + destruct (m_response_code response =? 404)%Z eqn:Hcode.
      * apply Z.eqb_eq in Hcode. rewrite Hcode. simpl.
        by rewrite requests_snoc, requests_app, app_nil_r.
      * cbv zeta. rewrite <- (follow_requests (Some response)).
        destruct (follow (Some response)) as [gets [last|]]; simpl fst; simpl snd.
        -- destruct (trace_verify last (record_all (map HttpGet gets) st))
             as (es & -> & Hes & _).
           simpl. by rewrite requests_app, requests_gets_all, Hes, app_nil_r.
        -- simpl. by rewrite requests_snoc, requests_gets_all, app_nil_r.
    + simpl. by rewrite requests_snoc, requests_app, app_nil_r.
  - subst sent. constructor; [done|].
    destruct (invoke_get [] first_request) as [response|]; [|done].
    destruct (m_response_code response =? 302)%Z; [|done].
    apply Forall_map, Forall_forall. by intros f _.
Qed.

(** X5: on a target without a release (a Unix other than Linux and macOS,
    or an unknown system) the expected hash is empty, so no body can match
    it: an attempt never reports success, never runs [tar] and never
    changes the file system. *)
Theorem download_without_release (st : State) :
  os = OtherUnix ∨ os = Unknown →
  (p2poolDownloadSuccess ∉ drop (length (signals (trace st)))
                                (signals (trace (download st))))
  ∧ files (download st) = files st
  ∧ commands (trace (download st)) = commands (trace st).
Proof.
  intros Hos.
  assert (validHash = EmptyString) as Hhash.
  { unfold validHash. by destruct Hos as [-> | ->]. }
  assert (∀ last st1, verify last st1
                      = emit (p2poolDownloadFailure HashVerificationFailed) st1)
    as Hverify.
  { intros last st1. unfold verify. rewrite decide_True; [done|].
    intros Heq. pose proof (sha256_hex_length (m_body last)) as Hlen.
    by rewrite Heq, Hhash in Hlen. }
  assert (∀ e sent,
            let st' := emit (p2poolDownloadFailure e)
                            (record_all (map HttpGet sent) st) in
            (p2poolDownloadSuccess ∉ drop (length (signals (trace st)))
                                          (signals (trace st')))
            ∧ files st' = files st
            ∧ commands (trace st') = commands (trace st)) as Hfail.
  { intros e sent. simpl.
    rewrite signals_snoc, commands_snoc, signals_gets, commands_gets,
      drop_app_length, app_nil_r.
    split; [|done]. intros Hin. apply elem_of_cons in Hin as [Hin|Hin]; [done|].
    by apply elem_of_nil in Hin. }
  rewrite download_unfold.
  destruct (invoke_get [] first_request) as [response|]; [|apply Hfail].
  destruct (m_response_code response =? 404)%Z; [apply Hfail|].
  cbv zeta. destruct (follow (Some response)).2 as [last|]; [|apply Hfail].
  rewrite Hverify. apply Hfail.
Qed.

End DownloadAlways.

(** ** [getStatus]: every poll *)

Lemma toInt_range (v : QJsonValue) : (INT_MIN ≤ toInt v ≤ INT_MAX)%Z.
Proof.
  assert (INT_MIN ≤ 0 ≤ INT_MAX)%Z as Hzero by (by vm_compute).
  unfold toInt. destruct v as [| |m e| | | |]; try done.
  destruct (if (0 <=? e)%Z then _ else _) as [i|]; [|done].
  destruct ((INT_MIN <=? i)%Z && (i <=? INT_MAX)%Z) eqn:Hi; [|done].
  apply andb_true_iff in Hi as [Hlo Hhi]. lia.
Qed.

Section StatusAlways.
Context `{Env}.

(** X6: every poll emits one [p2poolStatus] signal and does nothing else;
    the flag it carries is [started], and the hash rate is an [int],
    whatever the statistics file holds (a negative number in the file is
    reported as it is). *)
Theorem getStatus_reports_started (st : State) :
  ∃ hashrate, getStatus st = emit (p2poolStatus (started st) hashrate) st
              ∧ (INT_MIN ≤ hashrate ≤ INT_MAX)%Z.
Proof.
  unfold getStatus.
  destruct (isFile (files st) (path_of statsPath)), (started st); simpl;
    eexists; (split; [reflexivity|]); by first [apply toInt_range | vm_compute].
Qed.

End StatusAlways.

(** ** [start]: the argument list *)

Lemma split_no_sep (sep : ascii) (s : string) :
  Forall (λ w, sep ∉ list_ascii_of_string w) (split sep s).
Proof.
  induction s as [|c s IH]; simpl.
  - constructor; [|done]. apply not_elem_of_nil.
  - case_decide as Hc.
    + constructor; [apply not_elem_of_nil|done].
    + destruct (split sep s) as [|w ws]; inversion IH as [|? ? Hw Hws]; subst.
      * constructor; [|done]. simpl. rewrite elem_of_cons, elem_of_nil.
        by intros [->|[]].
      * constructor; [|done]. simpl. rewrite elem_of_cons. by intros [->|?].
Qed.

(** X7: the pieces of [flags] that become arguments are not empty and hold
    no space, and the flags of two texts joined by a space are the flags of
    the first followed by those of the second: leading, trailing and
    repeated spaces add nothing. *)
Theorem flag_tokens_pieces (flags more : string) :
  Forall (λ token, token ≠ EmptyString
                   ∧ " "%char ∉ list_ascii_of_string token) (flag_tokens flags)
  ∧ flag_tokens (flags +:+ " " +:+ more) = flag_tokens flags ++ flag_tokens more.
Proof.
  split.
  - apply Forall_forall. intros token [Hne Hin]%list_elem_of_filter.
    split; [by destruct token|].
    pose proof (split_no_sep " " flags) as Hsplit.
    by apply (proj1 (Forall_forall _ _) Hsplit).
  - unfold flag_tokens.
    change (flags +:+ " " +:+ more) with (flags +:+ String " "%char more).
    by rewrite (split_append " " flags more), filter_app.
Qed.

Lemma contains_true (l : list string) (x : string) :
  contains l x = true ↔ x ∈ l.
Proof. unfold contains. apply bool_decide_eq_true. Qed.

(** A flag appended unless it is there already is there afterwards, behind
    what was there. *)
Lemma appended_unless_present (l extra : list string) (x : string) :
  let l' := if negb (contains l x) then l ++ x :: extra else l in
  l `prefix_of` l' ∧ x ∈ l'.
Proof.
  simpl. destruct (contains l x) eqn:Hc; simpl.
  - split; [done|]. by apply contains_true.
  - split; [by apply prefix_app_r|]. apply elem_of_app. right.
    apply list_elem_of_here.
Qed.

Section StartAlways.
Context `{Env}.

Lemma mining_flags_complete (address chain threads : string) (args : list string) :
  let args' := mining_flags address chain threads args in
  args `prefix_of` args'
  ∧ "--start-mining" ∈ args' ∧ "--wallet" ∈ args'
  ∧ (chain = "mini" → "--mini" ∈ args').
Proof.
  unfold mining_flags.
  destruct (appended_unless_present args [threads] "--start-mining") as [Hp1 Hm].
  set (a1 := if negb (contains args "--start-mining") then _ else _) in *.
  assert (a1 `prefix_of` (if decide (chain = "mini") then a1 ++ ["--mini"] else a1)
          ∧ (chain = "mini" →
             "--mini" ∈ (if decide (chain = "mini") then a1 ++ ["--mini"] else a1)))
    as [Hp2 Hc].
  { destruct (decide (chain = "mini")); [|done].
    split; [by apply prefix_app_r|]. intros _. apply elem_of_app. right.
    apply list_elem_of_here. }
  set (a2 := if decide (chain = "mini") then _ else _) in *.
  destruct (appended_unless_present a2 [address] "--wallet") as [Hp3 Hw].
  set (a3 := if negb (contains a2 "--wallet") then _ else _) in *.
  simpl. split; [by repeat (etrans; [eassumption|])|].
  split; [|split; [done|]].
  - eapply elem_of_prefix; [exact Hm|]. by etrans.
  - intros Hmini. eapply elem_of_prefix; [by apply Hc|done].
Qed.

(** X8: whatever the caller passes, the argument list begins with the
    caller's flags in their order and holds [--local-api], [--data-api],
    [--start-mining] and [--wallet], and [--mini] when the chain is
    [mini]. *)
Theorem start_arguments_complete
    (flags address chain threads : string) (fs : filesystem) :
  let args := (assemble flags address chain threads fs).1 in
  flag_tokens flags `prefix_of` args
  ∧ "--local-api" ∈ args ∧ "--data-api" ∈ args
  ∧ "--start-mining" ∈ args ∧ "--wallet" ∈ args
  ∧ (chain = "mini" → "--mini" ∈ args).
Proof.
  unfold assemble.
  destruct (appended_unless_present (flag_tokens flags) [] "--local-api")
    as [Hp1 Hl].
  fold (custom_flags flags) in Hp1, Hl.
  destruct (appended_unless_present (custom_flags flags) [dirName] "--data-api")
    as [Hp2 Hd].
  set (a2 := if negb (contains (custom_flags flags) "--data-api") then _ else _)
    in *.
  assert ((let '(args, fs0) :=
             if negb (contains (custom_flags flags) "--data-api")
             then (custom_flags flags ++ ["--data-api"; dirName], recreate fs)
             else (custom_flags flags, fs) in
           (mining_flags address chain threads args, fs0)).1
          = mining_flags address chain threads a2) as ->.
  { subst a2. by destruct (contains (custom_flags flags) "--data-api"). }
  destruct (mining_flags_complete address chain threads a2)
    as (Hp3 & Hm & Hw & Hc).
  simpl. split; [by repeat (etrans; [eassumption|])|].
  split; [|split; [|done]].
  - eapply elem_of_prefix; [exact Hl|]. by etrans.
  - by eapply elem_of_prefix.
Qed.

Lemma start_files (flags address chain threads : string) (launched : bool)
    (st : State) :
  files (start flags address chain threads launched st).2
  = (assemble flags address chain threads (files st)).2.
Proof.
  unfold start.
  destruct (assemble flags address chain threads (files st)) as [args fs].
  unfold launch. by destruct launched.
Qed.

Lemma start_started (flags address chain threads : string) (launched : bool)
    (st : State) :
  started (start flags address chain threads launched st).2 = launched.
Proof.
  unfold start.
  destruct (assemble flags address chain threads (files st)) as [args fs].
  unfold launch. by destruct launched.
Qed.

Lemma start_files_outside
    (flags address chain threads : string) (launched : bool) (st : State)
    (q : path) :
  ¬ path_of dirName `prefix_of` q →
  files (start flags address chain threads launched st).2 !! q = files st !! q.
Proof.
  intros Hq. rewrite start_files, assemble_files.
  destruct (contains (flag_tokens flags) "--data-api"); [done|].
  by apply recreate_other.
Qed.

Lemma exit_files_outside (st : State) (q : path) :
  ¬ path_of dirName `prefix_of` q → files (exit st) !! q = files st !! q.
Proof.
  intros Hq. unfold exit. destruct (started st); [|done]. simpl.
  by apply removeRecursively_other.
Qed.

Lemma exit_started (st : State) : started (exit st) = false.
Proof. unfold exit. by destruct (started st) eqn:Hst. Qed.

(** X9: [start] and [exit] change nothing in the file system outside the
    stats directory. *)
Theorem start_exit_touch_stats_only
    (flags address chain threads : string) (launched : bool) (st : State)
    (q : path) :
  ¬ path_of dirName `prefix_of` q →
  files (start flags address chain threads launched st).2 !! q = files st !! q
  ∧ files (exit st) !! q = files st !! q.
Proof.
  intros Hq. split; [by apply start_files_outside|by apply exit_files_outside].
Qed.

Lemma binary_outside_stats : ¬ path_of dirName `prefix_of` path_of m_p2pool.
Proof.
  rewrite path_of_dirName. unfold m_p2pool.
  assert (∀ name, name ≠ "stats" →
            ¬ path_of m_p2poolPath ++ ["stats"]
              `prefix_of` path_of m_p2poolPath ++ [name]) as Hname.
  { intros name Hne Hpre%prefix_app_inv.
    by apply prefix_cons_inv_1 in Hpre. }
  destruct os eqn:Hos;
    try (rewrite (path_of_append _ "p2pool"); by apply Hname).
  - rewrite (path_of_append _ "p2pool.exe"). by apply Hname.
  - intros Hpre%prefix_nil_inv. by destruct (path_of m_p2poolPath).
Qed.

(** X10: starting the daemon, stopping it and polling it never install or
    remove the daemon's binary: [isInstalled] gives the same answer
    afterwards. *)
Theorem isInstalled_kept
    (flags address chain threads : string) (launched : bool) (st : State) :
  isInstalled (start flags address chain threads launched st).2 = isInstalled st
  ∧ isInstalled (exit st) = isInstalled st
  ∧ isInstalled (getStatus st) = isInstalled st.
Proof.
  unfold isInstalled, isFile.
  rewrite (start_files_outside _ _ _ _ _ _ _ binary_outside_stats).
  rewrite (exit_files_outside _ _ binary_outside_stats).
  split; [done|]. split; [done|].
  unfold getStatus. by destruct (_ || _).
Qed.

(** X11: with [--data-api] among the caller's flags [start] leaves the file
    system as it is: the stats directory is neither removed nor created. *)
Theorem start_with_data_api
    (flags address chain threads : string) (launched : bool) (st : State) :
  contains (flag_tokens flags) "--data-api" = true →
  files (start flags address chain threads launched st).2 = files st.
Proof. intros Hd. by rewrite start_files, assemble_files, Hd. Qed.

(** X12: after [exit] the manager is not started, whatever it was before;
    [exit] emits no signal, a second [exit] in a row does nothing, and a
    poll after [exit] reports [p2poolStatus(false, 0)]. *)
Theorem exit_stops (st : State) :
  started (exit st) = false
  ∧ signals (trace (exit st)) = signals (trace st)
  ∧ exit (exit st) = exit st
  ∧ getStatus (exit st) = emit (p2poolStatus false 0) (exit st).
Proof.
  pose proof (exit_started st) as Hs.
  split; [done|]. split; [|split].
  - unfold exit. destruct (started st); [|done]. simpl.
    unfold kill. destruct os; by rewrite signals_snoc, app_nil_r.
  - unfold exit at 1. by rewrite Hs.
  - rewrite <- Hs at 1. apply getStatus_not_file. by right.
Qed.

Lemma statsPath_below_dirName :
  path_of statsPath = path_of dirName ++ ["local"; "miner"].
Proof. by rewrite path_of_statsPath, path_of_dirName, <- app_assoc. Qed.

(** X13: a poll right after a [start] that dealt with the stats directory
    reports hash rate 0 with the launch's outcome as flag: a statistics file
    left by an earlier run is gone and is not reported (for a well-formed
    file system with no regular file called [stats] in the install
    directory). *)
Theorem poll_after_start
    (flags address chain threads : string) (launched : bool) (st : State) :
  contains (flag_tokens flags) "--data-api" = false →
  well_formed (files st) →
  isFile (files st) (path_of dirName) = false →
  let st' := (start flags address chain threads launched st).2 in
  files st' !! path_of statsPath = None
  ∧ getStatus st' = emit (p2poolStatus launched 0) st'.
Proof.
  intros Hd Hwf Hf st'.
  assert (files st' !! path_of statsPath = None) as Hgone.
  { subst st'. rewrite start_files, assemble_files, Hd.
    apply recreate_empty; [done|done| |].
    - rewrite statsPath_below_dirName. by apply prefix_app_r.
    - rewrite statsPath_below_dirName. intros Heq.
      apply (f_equal length) in Heq. rewrite length_app in Heq.
      simpl in Heq. lia. }
  split; [done|].
  rewrite <- (start_started flags address chain threads launched st) at 1.
  apply getStatus_not_file. left. unfold isFile. by rewrite Hgone.
Qed.

(** X14: an [exit] after a [start] that launched removes the stats
    directory with all it holds; after a [start] whose launch failed,
    [exit] does nothing, and the stats directory that [start] created stays
    (for flags without [--data-api], an install directory that exists and
    no regular file called [stats] in it). *)
Theorem exit_after_start
    (flags address chain threads : string) (st : State) :
  contains (flag_tokens flags) "--data-api" = false →
  isDir (files st) (path_of m_p2poolPath) = true →
  isFile (files st) (path_of dirName) = false →
  let launched := (start flags address chain threads true st).2 in
  let failed := (start flags address chain threads false st).2 in
  (∀ q, path_of dirName `prefix_of` q → files (exit launched) !! q = None)
  ∧ started (exit launched) = false
  ∧ exit failed = failed
  ∧ isDir (files (exit failed)) (path_of dirName) = true.
Proof.
  intros Hd Hi Hf launched failed.
  assert (isDir (recreate (files st)) (path_of dirName) = true) as Hdir
    by (by apply recreate_isDir).
  assert (exit failed = failed) as Hfailed.
  { unfold exit. subst failed. by rewrite start_started. }
  split; [|split; [|split; [done|]]].
  - intros q Hq. unfold exit. subst launched. rewrite start_started. simpl.
    apply removeRecursively_below; [|done].
    by rewrite start_files, assemble_files, Hd.
  - apply exit_started.
  - rewrite Hfailed. subst failed. by rewrite start_files, assemble_files, Hd.
Qed.

End StartAlways.

(** ** Concurrent calls: every call returns *)

Section ThreadsAlways.
Context `{Env}.

Lemma thread_step_holder (j i : nat) (t t' : Thread) (st st' : State)
    (m m' : option nat) :
  thread_step j t st m = Some (t', st', m') →
  m' = Some i →
  (m = None ∧ i = j ∧ locked t' = true)
  ∨ (m = Some i ∧ (locked t = true → locked t' = true)).
Proof.
  intros Hstep Hm.
  destruct t; simpl in Hstep; repeat case_match; simplify_eq; simpl; auto.
Qed.

(** The thread recorded as holder of the mutex is in its locked part. *)
Lemma reachable_holder_locked (st : State) (ts : list Thread) (c : Config) :
  reachable (spawn st ts) c →
  ∀ i, m_p2poolMutex c = Some i →
       ∃ t, threads c !! i = Some t ∧ locked t = true.
Proof.
  induction 1 as [|c j c' _ IH Hstep]; [done|].
  unfold step in Hstep.
  destruct (threads c !! j) as [t|] eqn:Ht; [|done].
  destruct (thread_step j t (shared c) (m_p2poolMutex c))
    as [[[t' st'] m']|] eqn:Hs; [|done].
  simplify_eq. simpl. intros i Hi.
  assert (j < length (threads c)) as Hj by (by eapply lookup_lt_Some).
  destruct (thread_step_holder _ _ _ _ _ _ _ _ Hs Hi)
    as [(_ & -> & Hl)|[Hm Hkeep]].
  - exists t'. by rewrite list_lookup_insert_eq.
  - destruct (IH i Hm) as (ti & Hti & Hli).
    destruct (decide (j = i)) as [->|Hne].
    + simplify_eq. exists t'. rewrite list_lookup_insert_eq by done. auto.
    + exists ti. by rewrite list_lookup_insert_ne.
Qed.

Lemma enabled_step (i : nat) (t : Thread) (c : Config) :
  threads c !! i = Some t →
  finished t = false →
  locked t = true ∨ m_p2poolMutex c = None ∨ (∀ args launched, t ≠ Start_lock args launched) →
  ∃ c', step i c = Some c'.
Proof.
  intros Ht Hf Hok. unfold step. rewrite Ht.
  destruct t; try done; simpl; repeat case_match; simplify_eq; eauto.
  destruct Hok as [?|[?|Hne]]; [done|done|]. by destruct (Hne args launched).
Qed.

(** X15: concurrent calls of [start] and [exit] cannot get stuck: as long
    as one of them has not returned, some thread can take a step; and once
    all have returned the mutex is free. *)
Theorem calls_never_deadlock (st : State) (ts : list Thread) (c : Config) :
  reachable (spawn st ts) c →
  (Forall (λ t, finished t = true) (threads c) ∧ m_p2poolMutex c = None)
  ∨ ∃ i c', step i c = Some c'.
Proof.
  intros Hreach.
  pose proof (reachable_holder_locked st ts c Hreach) as Hholder.
  destruct (decide (Forall (λ t, finished t = true) (threads c))) as [Hall|Hsome].
  - left. split; [done|].
    destruct (m_p2poolMutex c) as [i|] eqn:Hm; [|done].
    destruct (Hholder i eq_refl) as (t & Ht & Hl).
    pose proof (Forall_lookup_1 _ _ _ _ Hall Ht) as Hf. by destruct t.
  - right. apply not_Forall_Exists in Hsome; [|apply _].
    apply Exists_exists in Hsome as (t & Hin & Hf).
    apply list_elem_of_lookup in Hin as [k Hk].
    apply not_true_is_false in Hf.
    destruct (m_p2poolMutex c) as [i|] eqn:Hm.
    + destruct (Hholder i eq_refl) as (ti & Hti & Hli).
      exists i. eapply enabled_step; [done| |by left]. by destruct ti.
    + exists k. eapply enabled_step; [done|done|by right; left].
Qed.

Lemma thread_step_rank (i : nat) (t t' : Thread) (st st' : State)
    (m m' : option nat) :
  thread_step i t st m = Some (t', st', m') → rank t' < rank t.
Proof.
  intros Hstep.
  destruct t; simpl in Hstep; repeat case_match; simplify_eq; simpl; lia.
Qed.

Lemma sum_rank_insert (ts : list Thread) (i : nat) (t t' : Thread) :
  ts !! i = Some t →
  sum_list (rank <$> <[i := t']> ts) + rank t = sum_list (rank <$> ts) + rank t'.
Proof.
  revert i. induction ts as [|t0 ts IH]; intros [|i] Hi; simplify_eq/=; [lia|].
  specialize (IH i Hi). lia.
Qed.

(** X16: a [start] takes at most 10 steps and an [exit] at most 4, in any
    interleaving: the steps a schedule makes are bounded by the steps the
    threads had left when it began. *)
Theorem calls_terminate (schedule : list nat) (c c' : Config) :
  run schedule c = Some c' →
  (length schedule + sum_list (rank <$> threads c')
   ≤ sum_list (rank <$> threads c))%nat.
Proof.
  revert c. induction schedule as [|i schedule IH]; intros c Hrun; simpl in Hrun.
  - simplify_eq. simpl. lia.
  - destruct (step i c) as [c1|] eqn:Hstep; [|done].
    specialize (IH c1 Hrun). unfold step in Hstep.
    destruct (threads c !! i) as [t|] eqn:Ht; [|done].
    destruct (thread_step i t (shared c) (m_p2poolMutex c))
      as [[[t' st'] m']|] eqn:Hs; [|done].
    simplify_eq. simpl in *.
    pose proof (thread_step_rank _ _ _ _ _ _ _ Hs) as Hrank.
    pose proof (sum_rank_insert (threads c) i t t' Ht) as Hsum. lia.
Qed.

End ThreadsAlways.

(** ** The constructor *)

Section Constructor.
Context `{Env}.

(** X17: on Windows the constructor creates the install directory
    [<application directory>/p2pool] when the application directory exists
    and holds no file of that name, and touches nothing else; the manager
    begins not started, without a process object and without events. *)
Theorem constructor_creates_install_dir (fs : filesystem) :
  os = Windows →
  isDir fs (path_of applicationDirPath) = true →
  isFile fs (path_of m_p2poolPath) = false →
  let st := P2PoolManager fs in
  isDir (files st) (path_of m_p2poolPath) = true
  ∧ (∀ q, q ≠ path_of m_p2poolPath → files st !! q = fs !! q)
  ∧ started st = false ∧ m_p2poold st = None ∧ trace st = [].
Proof.
  intros Hos Happ Hfile. unfold P2PoolManager. simpl. rewrite Hos.
  assert (parent (path_of m_p2poolPath) = path_of applicationDirPath) as Hparent.
  { unfold m_p2poolPath. rewrite Hos, (path_of_append _ "p2pool").
    apply removelast_last. }
  destruct (isDir fs (path_of m_p2poolPath)) eqn:Hd; [done|].
  split; [|split; [|done]].
  - apply mkdir_isDir; [|by rewrite Hparent].
    unfold isDir in Hd. unfold isFile in Hfile.
    by destruct (fs !! path_of m_p2poolPath) as [[]|].
  - intros q Hq. by apply mkdir_other.
Qed.

End Constructor.

(** ** [getStatus]: a file without a hash rate *)

Section StatusUnreadable.
Context `{Env}.

Lemma value_missing (ms : list (string * QJsonValue)) (key : string) :
  key ∉ ms.*1 → value ms key = Undefined.
Proof.
  intros Hkey. unfold value.
  destruct (filter (λ kv, kv.1 = key) ms) as [|kv kvs] eqn:Hfilter; [done|].
  assert (kv ∈ filter (λ kv, kv.1 = key) ms) as Hin
    by (rewrite Hfilter; apply list_elem_of_here).
  apply list_elem_of_filter in Hin as [<- Hin]. destruct Hkey.
  apply list_elem_of_fmap. by exists kv.
Qed.

(** X18: when the word read from the statistics file is not a JSON object
    with a member [current_hashrate] (the file is empty, cut short, not
    JSON, an array, or an object without that member), a poll of the started
    manager reports hash rate 0 and no error. *)
Theorem getStatus_without_rate (st : State) (data : string) :
  files st !! path_of statsPath = Some (File data) →
  started st = true →
  (∀ ms, fromJson (readWord (codecForLocale data)) = Some (Object ms) →
         "current_hashrate" ∉ ms.*1) →
  getStatus st = emit (p2poolStatus true 0) st.
Proof.
  intros Hfile Hstarted Hrate. rewrite (getStatus_polling st data) by done.
  destruct (fromJson (readWord (codecForLocale data))) as [[| | | | |ms|]|];
    try done.
  simpl. by rewrite value_missing by (by apply Hrate).
Qed.

End StatusUnreadable.

(** ** The further properties on the sample installation *)

Lemma download_not_found_witness :
  let E := sample_env (answering 404 "Not Found") in
  let st := P2PoolManager installed in
  signals (trace (download st))
  = signals (trace st) ++ [p2poolDownloadFailure BinaryNotAvailable]
  ∧ requests (trace (download st)) = requests (trace st) ++ [first_request]
  ∧ commands (trace (download st)) = commands (trace st)
  ∧ files (download st) = files st.
Proof.
  intros E st.
  apply (download_not_found st
           {| m_response_code := 404; m_etc_fields := [];
              m_body := "Not Found" |}); reflexivity.
Defined.

Lemma download_unreachable_witness :
  let E := sample_env offline in
  let st := P2PoolManager installed in
  signals (trace (download st))
  = signals (trace st) ++ [p2poolDownloadFailure ConnectionIssue]
  ∧ requests (trace (download st)) = requests (trace st) ++ [first_request]
  ∧ commands (trace (download st)) = commands (trace st)
  ∧ files (download st) = files st.
Proof. intros E st. apply (download_unreachable st). reflexivity. Defined.

Lemma download_without_release_witness :
  let E := sample_env_on OtherUnix (serving "not the archive") in
  let st := P2PoolManager installed in
  (p2poolDownloadSuccess ∉ drop (length (signals (trace st)))
                                (signals (trace (download st))))
  ∧ files (download st) = files st
  ∧ commands (trace (download st)) = commands (trace st).
Proof. intros E st. apply (download_without_release st). left. reflexivity. Defined.

Lemma start_exit_touch_stats_only_witness :
  let E := sample_env offline in
  let st := running (mining compact_json) in
  let q := ["opt"; "monero-gui"; "p2pool"] in
  files (start EmptyString "abc" "main" "4" true st).2 !! q = files st !! q
  ∧ files (exit st) !! q = files st !! q.
Proof.
  intros E st q. apply (start_exit_touch_stats_only _ _ _ _ _ st q).
  apply (bool_decide_unpack _). vm_compute. exact I.
Defined.

Lemma start_with_data_api_witness :
  let E := sample_env offline in
  let st := P2PoolManager installed in
  files (start "--data-api /custom" "abc" "main" "4" true st).2 = files st.
Proof.
  intros E st. apply (start_with_data_api _ _ _ _ _ st). vm_compute. reflexivity.
Defined.

Lemma poll_after_start_witness :
  let E := sample_env offline in
  let st' := (start EmptyString "abc" "main" "4" true
                    (running (mining compact_json))).2 in
  files st' !! path_of statsPath = None
  ∧ getStatus st' = emit (p2poolStatus true 0) st'.
Proof.
  intros E st'.
  apply (poll_after_start EmptyString "abc" "main" "4" true
           (running (mining compact_json))).
  - vm_compute. reflexivity.
  - apply (bool_decide_unpack _). vm_compute. exact I.
  - vm_compute. reflexivity.
Defined.

Lemma exit_after_start_witness :
  let E := sample_env offline in
  let st := P2PoolManager installed in
  let launched := (start EmptyString "abc" "main" "4" true st).2 in
  let failed := (start EmptyString "abc" "main" "4" false st).2 in
  (∀ q, path_of dirName `prefix_of` q → files (exit launched) !! q = None)
  ∧ started (exit launched) = false
  ∧ exit failed = failed
  ∧ isDir (files (exit failed)) (path_of dirName) = true.
Proof.
  intros E st.
  apply (exit_after_start EmptyString "abc" "main" "4" st);
    vm_compute; reflexivity.
Defined.

Lemma calls_never_deadlock_witness :
  let E := sample_env offline in
  let c := after [0; 0; 0; 0; 0; 0; 1; 1; 1] race in
  (Forall (λ t, finished t = true) (threads c) ∧ m_p2poolMutex c = None)
  ∨ ∃ i c', step i c = Some c'.
Proof.
  intros E c.
  apply (calls_never_deadlock (shared race) (threads race) c).
  apply (run_reachable [0; 0; 0; 0; 0; 0; 1; 1; 1]). vm_compute. reflexivity.
Defined.

Lemma calls_terminate_witness :
  let E := sample_env offline in
  let schedule := [0; 0; 0; 0; 0; 0; 1; 1; 1; 0; 1; 0; 0] in
  (length schedule + sum_list (rank <$> threads (after schedule race))
   ≤ sum_list (rank <$> threads race))%nat.
Proof.
  intros E schedule. apply (calls_terminate schedule race).
  vm_compute. reflexivity.
Defined.

Lemma constructor_creates_install_dir_witness :
  let E := sample_env_on Windows offline in
  let st := P2PoolManager unpacked in
  isDir (files st) (path_of m_p2poolPath) = true
  ∧ (∀ q, q ≠ path_of m_p2poolPath → files st !! q = unpacked !! q)
  ∧ started st = false ∧ m_p2poold st = None ∧ trace st = [].
Proof.
  intros E st. apply (constructor_creates_install_dir unpacked);
    vm_compute; reflexivity.
Defined.

Lemma getStatus_without_rate_witness :
  let E := sample_env offline in
  let st := running (mining "{}") in
  getStatus st = emit (p2poolStatus true 0) st.
Proof.
  intros E st. apply (getStatus_without_rate st "{}").
  - vm_compute. reflexivity.
  - reflexivity.
  - intros ms Hms. vm_compute in Hms. simplify_eq. apply not_elem_of_nil.
Defined.
